(** * CATENets: pseudo-outcome transformations

    Shallow embedding of [catenets/models/transformation_utils.py]: the
    three transformations (Horvitz-Thompson, regression adjustment, AIPW)
    and the registry that finds them by name.

    Modelling choices.
    - An array is a one-dimensional [float64] array: a list of IEEE 754
      binary64 numbers, Rocq's primitive floats.  A treatment indicator
      held in an integer array gives the same numbers, 0 and 1 being exact.
      NaN payloads are not represented: there is one NaN.
    - Arrays are objects of a store, and the functions run in a state and
      exception monad over it.  Every NumPy operation of the source creates
      a new array; that a call leaves its arguments alone is then a fact
      about the store and not an artefact of the embedding.
    - NumPy's default error state: dividing by zero or overflowing gives an
      infinity or a NaN (and a warning), not an exception.
    - A binary operation on two arrays follows NumPy's broadcasting for one
      dimension: equal lengths, or one operand of length 1, else
      [ValueError]; [None] as an operand is a [TypeError]. *)

From Stdlib Require Import Floats ZArith Lia DecimalString.
From stdpp Require Import base option list strings gmap.

(** ** Python values, exceptions and the store *)

Abbreviation ndarray := (list float).
Abbreviation addr := nat.

(** The store: one slot per array object, addressed by position.  A new
    object takes the next free position. *)
Abbreviation heap := (list ndarray).

(** What a caller can pass for [y], [w], [p], [mu_0], [mu_1]. *)
Inductive pyval :=
  | PNone
  | PArr (a : addr).

Inductive exn :=
  | TypeError
  | ValueError (msg : string)
  | KeyError
  | SystemError.

Inductive res (A : Type) :=
  | Ok (a : A)
  | Raise (e : exn).
Arguments Ok {A} a.
Arguments Raise {A} e.

(** Computations read and extend the store and may raise. *)
Definition M (A : Type) : Type := heap → res A * heap.

#[global] Instance M_ret : MRet M := λ A a h, (Ok a, h).
#[global] Instance M_bind : MBind M := λ A B k c h,
  match c h with
  | (Ok a, h') => k a h'
  | (Raise e, h') => (Raise e, h')
  end.

Definition lift {A} (r : res A) : M A := λ h, (r, h).

(** A fresh array object. *)
Definition alloc (xs : ndarray) : M pyval :=
  λ h, (Ok (PArr (length h)), h ++ [xs]).

(** The array behind a value; [None] is no array.  A reference outside the
    store cannot be built in Python; the model answers [SystemError]. *)
Definition as_array (v : pyval) : M ndarray := λ h,
  match v with
  | PNone => (Raise TypeError, h)
  | PArr a =>
      match h !! a with
      | Some xs => (Ok xs, h)
      | None => (Raise SystemError, h)
      end
  end.

(** ** The NumPy operations the module uses *)

(** Broadcasting of two one-dimensional arrays: equal lengths, or one of
    them of length 1. *)
Definition broadcast (f : float → float → float) (xs ys : ndarray)
  : res ndarray :=
  if decide (length xs = length ys) then Ok (zip_with f xs ys)
  else match xs, ys with
       | [x], _ => Ok (f x <$> ys)
       | _, [y] => Ok ((λ x, f x y) <$> xs)
       | _, _ => Raise (ValueError "operands could not be broadcast together")
       end.

(** [a op b] on two array values: a new array. *)
Definition np_binop (f : float → float → float) (a b : pyval) : M pyval :=
  xs ← as_array a;
  ys ← as_array b;
  zs ← lift (broadcast f xs ys);
  alloc zs.

Definition np_add := np_binop PrimFloat.add.
Definition np_sub := np_binop PrimFloat.sub.
Definition np_mul := np_binop PrimFloat.mul.
Definition np_div := np_binop PrimFloat.div.

(** [c - a] for a Python number [c] on the left ([ndarray.__rsub__]). *)
Definition np_rsub (c : float) (a : pyval) : M pyval :=
  xs ← as_array a;
  alloc (PrimFloat.sub c <$> xs).

(** [len(v)] *)
Definition py_len (v : pyval) : M nat :=
  xs ← as_array v;
  mret (length xs).

(** [onp.full(n, c)] *)
Definition np_full (n : nat) (c : float) : M pyval :=
  alloc (replicate n c).

Definition is_None (v : pyval) : bool :=
  match v with PNone => true | PArr _ => false end.

(** ** The three transformations *)

(** Lines 14-42. *)
Definition aipw_te_transformation (y w p mu_0 mu_1 : pyval) : M pyval :=
  p ← (if is_None p then n ← py_len y; np_full n 0.5%float else mret p);
  w_1 ← np_div w p;
  t1 ← np_rsub 1%float w;
  t2 ← np_rsub 1%float p;
  w_0 ← np_div t1 t2;
  t3 ← np_sub w_1 w_0;
  t4 ← np_mul t3 y;
  t5 ← np_rsub 1%float w_1;
  t6 ← np_mul t5 mu_1;
  t7 ← np_rsub 1%float w_0;
  t8 ← np_mul t7 mu_0;
  t9 ← np_sub t6 t8;
  np_add t4 t9.

(** Lines 45-70. *)
Definition ht_te_transformation (y w p mu_0 mu_1 : pyval) : M pyval :=
  p ← (if is_None p then n ← py_len y; np_full n 0.5%float else mret p);
  t1 ← np_div w p;
  t2 ← np_rsub 1%float w;
  t3 ← np_rsub 1%float p;
  t4 ← np_div t2 t3;
  t5 ← np_sub t1 t4;
  np_mul t5 y.

(** Lines 73-95. *)
Definition ra_te_transformation (y w p mu_0 mu_1 : pyval) : M pyval :=
  t1 ← np_sub y mu_0;
  t2 ← np_mul w t1;
  t3 ← np_rsub 1%float w;
  t4 ← np_sub mu_1 y;
  t5 ← np_mul t3 t4;
  np_add t2 t5.

(** ** The registry *)

Definition HT_TRANSFORMATION : string := "HT".
Definition AIPW_TRANSFORMATION : string := "AIPW".
Definition RA_TRANSFORMATION : string := "RA".

Definition ALL_TRANSFORMATIONS : list string :=
  [HT_TRANSFORMATION; AIPW_TRANSFORMATION; RA_TRANSFORMATION].

Definition te_function : Type := pyval → pyval → pyval → pyval → pyval → M pyval.

(** Lines 98-100. *)
Definition TRANSFORMATION_DICT : gmap string te_function :=
  <[AIPW_TRANSFORMATION := aipw_te_transformation]>
    (<[RA_TRANSFORMATION := ra_te_transformation]>
       (<[HT_TRANSFORMATION := ht_te_transformation]> ∅)).

(** What a caller can pass as a transformation name. *)
Inductive pyname :=
  | NStr (s : string)
  | NInt (z : Z)
  | NNone.

(** [name == s] for a string [s]. *)
Definition name_eqb (n : pyname) (s : string) : bool :=
  match n with
  | NStr t => String.eqb t s
  | NInt _ | NNone => false
  end.

(** [name in l]: a scan with [==]. *)
Definition py_in (n : pyname) (l : list string) : bool :=
  existsb (name_eqb n) l.

(** ['{}'.format(name)] *)
Definition py_format (n : pyname) : string :=
  match n with
  | NStr s => s
  | NInt z => NilZero.string_of_int (Z.to_int z)
  | NNone => "None"
  end.

(** [d[name]] *)
Definition dict_getitem {V} (d : gmap string V) (n : pyname) : res V :=
  match n with
  | NStr s =>
      match d !! s with
      | Some v => Ok v
      | None => Raise KeyError
      end
  | NInt _ | NNone => Raise KeyError
  end.

Definition invalid_name_prefix : string :=
  "Parameter first stage should be in " ++
  "catenets.models.transformations.ALL_TRANSFORMATIONS." ++
  " You passed ".

(** Lines 103-111. *)
Definition _get_transformation_function (transformation_name : pyname)
  : res te_function :=
  if negb (py_in transformation_name ALL_TRANSFORMATIONS) then
    Raise (ValueError (invalid_name_prefix ++ py_format transformation_name))
  else dict_getitem TRANSFORMATION_DICT transformation_name.

(** ** Scalar forms of the three formulas

    One element of the arrays of lines 70, 40-42 and 95. *)

Definition ht_elem (y w p : float) : float :=
  ((w / p - (1 - w) / (1 - p)) * y)%float.

Definition aipw_elem (y w p mu_0 mu_1 : float) : float :=
  let w_1 := (w / p)%float in
  let w_0 := ((1 - w) / (1 - p))%float in
  ((w_1 - w_0) * y + ((1 - w_1) * mu_1 - (1 - w_0) * mu_0))%float.

Definition ra_elem (y w mu_0 mu_1 : float) : float :=
  (w * (y - mu_0) + (1 - w) * (mu_1 - y))%float.

(** ** Vocabulary of the statements *)

(** [arr h v xs]: in store [h] the value [v] is an array with contents [xs]. *)
Definition arr (h : heap) (v : pyval) (xs : ndarray) : Prop :=
  ∃ a, v = PArr a ∧ h !! a = Some xs.

(** [yields c h rs]: run in [h], [c] returns a new array object with contents
    [rs]; the store is [h], then the intermediate arrays [c] created, then
    the result. *)
Definition yields (c : M pyval) (h : heap) (rs : ndarray) : Prop :=
  ∃ h', h `prefix_of` h' ∧ c h = (Ok (PArr (length h')), h' ++ [rs]).

(** [valid h v]: [v] is [None] or an array object of the store [h]. *)
Definition valid (h : heap) (v : pyval) : Prop :=
  match v with
  | PNone => True
  | PArr a => is_Some (h !! a)
  end.

(** [same_value h h' v v']: [v] read in [h] and [v'] read in [h'] are both
    [None], or arrays with the same contents. *)
Definition same_value (h h' : heap) (v v' : pyval) : Prop :=
  match v, v' with
  | PNone, PNone => True
  | PArr a, PArr a' => ∃ xs : ndarray, h !! a = Some xs ∧ h' !! a' = Some xs
  | _, _ => False
  end.

(** [same_outcome R h h' o o']: the runs [o] from [h] and [o'] from [h'] left
    every object of their stores as it was and ended alike, with the same
    exception or with results related by [R]. *)
Definition same_outcome {A} (R : heap → heap → A → A → Prop)
    (h h' : heap) (o o' : res A * heap) : Prop :=
  h `prefix_of` o.2 ∧ h' `prefix_of` o'.2
  ∧ match o.1, o'.1 with
    | Ok a, Ok a' => R o.2 o'.2 a a'
    | Raise e, Raise e' => e = e'
    | _, _ => False
    end.

(** The [p is None] prologue of lines 36-38 and 67-69, for the statements
    about it. *)
Local Abbreviation default_p y p :=
  (if is_None p then n ← py_len y; np_full n 0.5%float else mret p).

(** [propensity h p n ps]: for a batch of [n] units the argument [p] stands
    for the propensities [ps]: it is absent and [ps] is [n] halves, or it is
    an array of [n] elements with contents [ps]. *)
Definition propensity (h : heap) (p : pyval) (n : nat) (ps : ndarray) : Prop :=
  (p = PNone ∧ ps = replicate n 0.5%float) ∨ (arr h p ps ∧ length ps = n).

(** [batch h y w p mu_0 mu_1 ys ws ps m0s m1s]: the five arguments are an
    aligned batch of the store [h] with these contents. *)
Definition batch (h : heap) (y w p mu_0 mu_1 : pyval)
    (ys ws ps m0s m1s : ndarray) : Prop :=
  arr h y ys ∧ arr h w ws ∧ propensity h p (length ys) ps
  ∧ arr h mu_0 m0s ∧ arr h mu_1 m1s
  ∧ length ws = length ys ∧ length m0s = length ys ∧ length m1s = length ys.

(** [contains s msg]: the text [s] occurs in [msg]. *)
Definition contains (s msg : string) : Prop :=
  ∃ pre post : string, msg = (pre ++ s ++ post)%string.

(** The arrays that equal-length runs of lines 42, 70 and 95 build. *)
Definition ht_array (ys ws ps : ndarray) : ndarray :=
  zip_with PrimFloat.mul
    (zip_with PrimFloat.sub
       (zip_with PrimFloat.div ws ps)
       (zip_with PrimFloat.div (PrimFloat.sub 1 <$> ws) (PrimFloat.sub 1 <$> ps)))
    ys.

Definition aipw_array (ys ws ps m0s m1s : ndarray) : ndarray :=
  let w_1 := zip_with PrimFloat.div ws ps in
  let w_0 :=
    zip_with PrimFloat.div (PrimFloat.sub 1 <$> ws) (PrimFloat.sub 1 <$> ps) in
  zip_with PrimFloat.add
    (zip_with PrimFloat.mul (zip_with PrimFloat.sub w_1 w_0) ys)
    (zip_with PrimFloat.sub
       (zip_with PrimFloat.mul (PrimFloat.sub 1 <$> w_1) m1s)
       (zip_with PrimFloat.mul (PrimFloat.sub 1 <$> w_0) m0s)).

Definition ra_array (ys ws m0s m1s : ndarray) : ndarray :=
  zip_with PrimFloat.add
    (zip_with PrimFloat.mul ws (zip_with PrimFloat.sub ys m0s))
    (zip_with PrimFloat.mul (PrimFloat.sub 1 <$> ws)
       (zip_with PrimFloat.sub m1s ys)).

(** ** Facts of binary64 arithmetic *)

Lemma digits2_pos_shift (k : nat) (m : positive) :
  Z.pos (digits2_pos (Nat.iter k xO m)) = (Z.pos (digits2_pos m) + Z.of_nat k)%Z.
Proof.
  induction k as [|k IH]; [simpl; lia|].
  rewrite Nat.iter_succ. cbn [digits2_pos]. rewrite Pos2Z.inj_succ, IH. lia.
Qed.

Lemma SF64mul_1_l (x : spec_float) :
  valid_binary x = true → SF64mul (Prim2SF 1%float) x = x.
Proof.
  intros V.
  change (Prim2SF 1%float) with (S754_finite false 4503599627370496 (-52)).
  destruct x as [s|s| |s m e]; try reflexivity.
  unfold SF64mul, SFmul. cbn [xorb].
  simpl in V. unfold bounded, canonical_mantissa in V.
  apply andb_true_iff in V as [C B]. apply Z.eqb_eq in C.
  unfold binary_round_aux.
  unfold shr_fexp at 1. cbn [Zdigits2 shr_record_of_loc].
  assert (D : (fexp prec emax
                 (Z.pos (digits2_pos (4503599627370496 * m)) + (-52 + e))
               - (-52 + e) = 52)%Z).
  { change (4503599627370496 * m)%positive with (Nat.iter 52 xO m).
    rewrite digits2_pos_shift.
    replace (Z.pos (digits2_pos m) + Z.of_nat 52 + (-52 + e))%Z
      with (Z.pos (digits2_pos m) + e)%Z by lia.
    rewrite C. lia. }
  rewrite D.
  change (shr {| shr_m := Z.pos (4503599627370496 * m);
                 shr_r := false; shr_s := false |} (-52 + e) 52)
    with ({| shr_m := Z.pos m; shr_r := false; shr_s := false |},
          (-52 + e + 52)%Z).
  cbn [shr_m loc_of_shr_record round_nearest_even].
  replace (-52 + e + 52)%Z with e by lia.
  unfold shr_fexp. cbn [Zdigits2 shr_record_of_loc]. rewrite C, Z.sub_diag.
  cbn [shr shr_m]. by rewrite B.
Qed.

(** [1 * x] is [x], bit for bit, for every binary64 [x]. *)
Lemma float_mul_1_l (x : float) : (1 * x)%float = x.
Proof.
  apply Prim2SF_inj. rewrite mul_spec. apply SF64mul_1_l, Prim2SF_valid.
Qed.

Lemma is_finite_SF (x : float) :
  is_finite x = true ↔
  match Prim2SF x with
  | S754_zero _ | S754_finite _ _ _ => True
  | S754_infinity _ | S754_nan => False
  end.
Proof.
  unfold is_finite, is_nan, is_infinity.
  rewrite !FloatAxioms.eqb_spec, abs_spec.
  change (Prim2SF infinity) with (S754_infinity false).
  destruct (Prim2SF x) as [s|s| |s m e]; simpl; try done.
  - by destruct s.
  - unfold SFeqb, SFcompare.
    destruct s; rewrite Z.compare_refl, Pos.compare_cont_refl; done.
Qed.

Lemma float_zero_cases (x : float) s :
  Prim2SF x = S754_zero s → x = (if s then -0 else 0)%float.
Proof. intros E. apply Prim2SF_inj. rewrite E. by destruct s. Qed.

(** [0 * b] is a zero when [b] is finite, and a NaN otherwise. *)
Lemma float_mul_0_l_finite (b : float) :
  is_finite b = true → (0 * b = 0 ∨ 0 * b = -0)%float.
Proof.
  rewrite is_finite_SF. intros F.
  pose proof (mul_spec 0 b) as E.
  change (Prim2SF 0) with (S754_zero false) in E.
  destruct (Prim2SF b) as [s|s| |s m e]; try done;
    apply float_zero_cases in E; destruct s; auto.
Qed.

Lemma float_mul_0_l_not_finite (b : float) :
  is_finite b = false → (0 * b)%float = nan.
Proof.
  intros F. apply Prim2SF_inj. rewrite mul_spec.
  change (Prim2SF 0) with (S754_zero false).
  destruct (Prim2SF b) as [s|s| |s m e] eqn:E; try done.
  - assert (is_finite b = true) by (apply is_finite_SF; by rewrite E). congruence.
  - assert (is_finite b = true) by (apply is_finite_SF; by rewrite E). congruence.
Qed.

(** Adding a zero changes at most the sign of a zero. *)
Lemma float_add_zero_r (a z : float) :
  (z = 0 ∨ z = -0)%float →
  (a + z = a ∨ (a = -0 ∧ a + z = 0))%float.
Proof.
  intros Z. pose proof (add_spec a z) as E.
  assert (∃ s, Prim2SF z = S754_zero s) as [sz Ez]
    by (destruct Z as [-> | ->]; eauto).
  rewrite Ez in E.
  destruct (Prim2SF a) as [s|s| |s m e] eqn:Ea.
  - apply float_zero_cases in Ea. subst a.
    destruct s, sz; simpl in E; apply float_zero_cases in E; auto.
  - left. apply Prim2SF_inj. by rewrite E, Ea.
  - left. apply Prim2SF_inj. by rewrite E, Ea.
  - left. apply Prim2SF_inj. by rewrite E, Ea.
Qed.

Lemma float_add_zero_l (z b : float) :
  (z = 0 ∨ z = -0)%float →
  (z + b = b ∨ (b = -0 ∧ z + b = 0))%float.
Proof.
  intros Z. pose proof (add_spec z b) as E.
  assert (∃ s, Prim2SF z = S754_zero s) as [sz Ez]
    by (destruct Z as [-> | ->]; eauto).
  rewrite Ez in E.
  destruct (Prim2SF b) as [s|s| |s m e] eqn:Eb.
  - apply float_zero_cases in Eb. subst b.
    destruct s, sz; simpl in E; apply float_zero_cases in E; auto.
  - left. apply Prim2SF_inj. by rewrite E, Eb.
  - left. apply Prim2SF_inj. by rewrite E, Eb.
  - left. apply Prim2SF_inj. by rewrite E, Eb.
Qed.

Lemma float_add_nan_r (a : float) : (a + nan)%float = nan.
Proof.
  apply Prim2SF_inj. rewrite add_spec.
  change (Prim2SF nan) with S754_nan. by destruct (Prim2SF a).
Qed.

Lemma float_add_nan_l (b : float) : (nan + b)%float = nan.
Proof.
  apply Prim2SF_inj. rewrite add_spec.
  by change (Prim2SF nan) with S754_nan.
Qed.

(** The regression-adjustment formula at a treated and at a control unit. *)
Lemma ra_elem_treated (y m0 m1 : float) :
  is_finite (m1 - y) = true →
  ra_elem y 1 m0 m1 = (y - m0)%float
  ∨ ((y - m0)%float = (-0)%float ∧ ra_elem y 1 m0 m1 = 0%float).
Proof.
  intros F. unfold ra_elem. change (1 - 1)%float with 0%float.
  rewrite float_mul_1_l.
  by apply float_add_zero_r, float_mul_0_l_finite.
Qed.

Lemma ra_elem_treated_nan (y m0 m1 : float) :
  is_finite (m1 - y) = false → ra_elem y 1 m0 m1 = nan.
Proof.
  intros F. unfold ra_elem. change (1 - 1)%float with 0%float.
  by rewrite float_mul_0_l_not_finite, float_add_nan_r.
Qed.

Lemma ra_elem_control (y m0 m1 : float) :
  is_finite (y - m0) = true →
  ra_elem y 0 m0 m1 = (m1 - y)%float
  ∨ ((m1 - y)%float = (-0)%float ∧ ra_elem y 0 m0 m1 = 0%float).
Proof.
  intros F. unfold ra_elem. change (1 - 0)%float with 1%float.
  rewrite float_mul_1_l.
  by apply float_add_zero_l, float_mul_0_l_finite.
Qed.

Lemma ra_elem_control_nan (y m0 m1 : float) :
  is_finite (y - m0) = false → ra_elem y 0 m0 m1 = nan.
Proof.
  intros F. unfold ra_elem.
  by rewrite float_mul_0_l_not_finite, float_add_nan_l.
Qed.

(** ** Runs of the NumPy operations *)

Lemma arr_mono h l v xs : arr h v xs → arr (h ++ l) v xs.
Proof.
  intros (a & -> & Ha). exists a. split; [done|].
  by apply lookup_app_l_Some.
Qed.

Lemma arr_prefix h h' v xs : h `prefix_of` h' → arr h v xs → arr h' v xs.
Proof. intros [l ->]. apply arr_mono. Qed.

Lemma arr_alloc h xs : arr (h ++ [xs]) (PArr (length h)) xs.
Proof. exists (length h). split; [done|]. by apply list_lookup_middle. Qed.

Lemma arr_inj h v xs ys : arr h v xs → arr h v ys → xs = ys.
Proof. intros (a & -> & Ha) (b & [= <-] & Hb). congruence. Qed.

Lemma bind_ok {A B} (c : M A) (k : A → M B) h v h' :
  c h = (Ok v, h') → (c ≫= k) h = k v h'.
Proof. unfold mbind, M_bind. by intros ->. Qed.

Lemma as_array_run h v xs : arr h v xs → as_array v h = (Ok xs, h).
Proof. intros (a & -> & Ha). unfold as_array. by rewrite Ha. Qed.

Lemma broadcast_same f xs ys :
  length xs = length ys → broadcast f xs ys = Ok (zip_with f xs ys).
Proof. intros E. unfold broadcast. by rewrite decide_True. Qed.

Lemma np_binop_run f h a b xs ys :
  arr h a xs → arr h b ys → length xs = length ys →
  np_binop f a b h = (Ok (PArr (length h)), h ++ [zip_with f xs ys]).
Proof.
  intros Ha Hb E. unfold np_binop.
  rewrite (bind_ok _ _ _ _ _ (as_array_run _ _ _ Ha)).
  rewrite (bind_ok _ _ _ _ _ (as_array_run _ _ _ Hb)).
  unfold lift at 1. unfold mbind at 1, M_bind at 1.
  by rewrite broadcast_same.
Qed.

Lemma np_rsub_run c h a xs :
  arr h a xs →
  np_rsub c a h = (Ok (PArr (length h)), h ++ [PrimFloat.sub c <$> xs]).
Proof.
  intros Ha. unfold np_rsub.
  by rewrite (bind_ok _ _ _ _ _ (as_array_run _ _ _ Ha)).
Qed.

Lemma py_len_run h v xs : arr h v xs → py_len v h = (Ok (length xs), h).
Proof.
  intros Ha. unfold py_len.
  by rewrite (bind_ok _ _ _ _ _ (as_array_run _ _ _ Ha)).
Qed.

Lemma default_p_present h (y p : pyval) ps :
  arr h p ps → default_p y p h = (Ok p, h).
Proof. by intros (a & -> & _). Qed.

Lemma default_p_absent h (y : pyval) ys :
  arr h y ys →
  default_p y PNone h
  = (Ok (PArr (length h)), h ++ [replicate (length ys) 0.5%float]).
Proof.
  intros Hy. simpl.
  by rewrite (bind_ok _ _ _ _ _ (py_len_run _ _ _ Hy)).
Qed.

Create HintDb arr.
#[local] Hint Resolve arr_mono arr_alloc : arr.

Ltac len :=
  repeat first
    [ rewrite length_zip_with in *
    | rewrite length_fmap in *
    | rewrite length_replicate in * ];
  lia.

Ltac arrs := solve [eauto 16 with arr].

(** One statement of a straight-line body: run it, name the new store. *)
Ltac step :=
  first
    [ erewrite bind_ok; [| eapply np_binop_run; [arrs | arrs | len]]
    | erewrite bind_ok; [| eapply np_rsub_run; arrs] ].

(** The last statement: its result is the result of the body. *)
Ltac last_step :=
  eexists; split;
  [| eapply np_binop_run; [arrs | arrs | len] ];
  repeat apply prefix_app_r; reflexivity.

(** ** Runs of the three transformations on equal-length batches *)

Lemma ht_present h y w p mu_0 mu_1 ys ws ps :
  arr h y ys → arr h w ws → arr h p ps →
  length ws = length ys → length ps = length ys →
  yields (ht_te_transformation y w p mu_0 mu_1) h (ht_array ys ws ps).
Proof.
  intros Hy Hw Hp Ew Ep. unfold yields, ht_te_transformation.
  erewrite bind_ok by (eapply default_p_present; eauto).
  do 5 step. last_step.
Qed.

Lemma aipw_present h y w p mu_0 mu_1 ys ws ps m0s m1s :
  arr h y ys → arr h w ws → arr h p ps → arr h mu_0 m0s → arr h mu_1 m1s →
  length ws = length ys → length ps = length ys →
  length m0s = length ys → length m1s = length ys →
  yields (aipw_te_transformation y w p mu_0 mu_1) h
    (aipw_array ys ws ps m0s m1s).
Proof.
  intros Hy Hw Hp H0 H1 Ew Ep E0 E1. unfold yields, aipw_te_transformation.
  erewrite bind_ok by (eapply default_p_present; eauto).
  do 11 step. last_step.
Qed.

Lemma ra_run h y w p mu_0 mu_1 ys ws m0s m1s :
  arr h y ys → arr h w ws → arr h mu_0 m0s → arr h mu_1 m1s →
  length ws = length ys → length m0s = length ys → length m1s = length ys →
  yields (ra_te_transformation y w p mu_0 mu_1) h (ra_array ys ws m0s m1s).
Proof.
  intros Hy Hw H0 H1 Ew E0 E1. unfold yields, ra_te_transformation.
  do 5 step. last_step.
Qed.

(** With [p] absent the body runs on a fresh array of [len(y)] halves. *)
Lemma ht_absent_unfold h y w mu_0 mu_1 ys :
  arr h y ys →
  ht_te_transformation y w PNone mu_0 mu_1 h
  = ht_te_transformation y w (PArr (length h)) mu_0 mu_1
      (h ++ [replicate (length ys) 0.5%float]).
Proof.
  intros Hy. unfold ht_te_transformation.
  by erewrite bind_ok by (eapply default_p_absent; eauto).
Qed.

Lemma aipw_absent_unfold h y w mu_0 mu_1 ys :
  arr h y ys →
  aipw_te_transformation y w PNone mu_0 mu_1 h
  = aipw_te_transformation y w (PArr (length h)) mu_0 mu_1
      (h ++ [replicate (length ys) 0.5%float]).
Proof.
  intros Hy. unfold aipw_te_transformation.
  by erewrite bind_ok by (eapply default_p_absent; eauto).
Qed.

Lemma yields_prefix c c' h h' rs :
  h `prefix_of` h' → c h = c' h' → yields c' h' rs → yields c h rs.
Proof.
  intros Hp E (h'' & Hp' & R). exists h''. split; [by etrans|congruence].
Qed.

Lemma ht_absent h y w mu_0 mu_1 ys ws :
  arr h y ys → arr h w ws → length ws = length ys →
  yields (ht_te_transformation y w PNone mu_0 mu_1) h
    (ht_array ys ws (replicate (length ys) 0.5%float)).
Proof.
  intros Hy Hw Ew.
  eapply yields_prefix;
    [by apply prefix_app_r | by eapply ht_absent_unfold |].
  apply ht_present; [arrs | arrs | arrs | len | len].
Qed.

Lemma aipw_absent h y w mu_0 mu_1 ys ws m0s m1s :
  arr h y ys → arr h w ws → arr h mu_0 m0s → arr h mu_1 m1s →
  length ws = length ys → length m0s = length ys → length m1s = length ys →
  yields (aipw_te_transformation y w PNone mu_0 mu_1) h
    (aipw_array ys ws (replicate (length ys) 0.5%float) m0s m1s).
Proof.
  intros Hy Hw H0 H1 Ew E0 E1.
  eapply yields_prefix;
    [by apply prefix_app_r | by eapply aipw_absent_unfold |].
  apply aipw_present; [arrs | arrs | arrs | arrs | arrs | len ..].
Qed.

(** ** Concrete runs *)

(** The batch [y = [1,2]], [w = [1,0]], [p = [0.5,0.5]], [mu_0 = [0,0]],
    [mu_1 = [1,1]]. *)
Example sample_ra :
  yields (ra_te_transformation (PArr 0) (PArr 1) (PArr 2) (PArr 3) (PArr 4))
    [[1; 2]; [1; 0]; [0.5; 0.5]; [0; 0]; [1; 1]]%float [1; -1]%float.
Proof.
  apply (ra_run _ _ _ _ _ _ [1; 2]%float [1; 0]%float [0; 0]%float [1; 1]%float);
    try reflexivity; eexists; split; reflexivity.
Qed.

Example sample_ht :
  yields (ht_te_transformation (PArr 0) (PArr 1) (PArr 2) (PArr 3) (PArr 4))
    [[1; 2]; [1; 0]; [0.5; 0.5]; [0; 0]; [1; 1]]%float [2; -4]%float.
Proof.
  apply (ht_present _ _ _ _ _ _ [1; 2]%float [1; 0]%float [0.5; 0.5]%float);
    try reflexivity; eexists; split; reflexivity.
Qed.

Example sample_aipw :
  yields (aipw_te_transformation (PArr 0) (PArr 1) (PArr 2) (PArr 3) (PArr 4))
    [[1; 2]; [1; 0]; [0.5; 0.5]; [0; 0]; [1; 1]]%float [1; -3]%float.
Proof.
  apply (aipw_present _ _ _ _ _ _ [1; 2]%float [1; 0]%float [0.5; 0.5]%float
           [0; 0]%float [1; 1]%float);
    try reflexivity; eexists; split; reflexivity.
Qed.

Lemma yields_inj c h rs rs' : yields c h rs → yields c h rs' → rs = rs'.
Proof.
  intros (h1 & _ & E) (h2 & _ & E'). rewrite E in E'.
  injection E' as _ E'. by apply app_inj_tail in E' as [_ ?].
Qed.

(** On that batch the three functions give three different arrays: the
    registry's entries are three different functions. *)
Lemma transformations_distinct :
  ht_te_transformation ≠ ra_te_transformation
  ∧ ht_te_transformation ≠ aipw_te_transformation
  ∧ ra_te_transformation ≠ aipw_te_transformation.
Proof.
  pose proof sample_ht as Hh. pose proof sample_ra as Hr.
  pose proof sample_aipw as Ha.
  repeat split; intros E; rewrite E in *.
  - by pose proof (yields_inj _ _ _ _ Hh Hr).
  - by pose proof (yields_inj _ _ _ _ Hh Ha).
  - by pose proof (yields_inj _ _ _ _ Hr Ha).
Qed.

(** The AIPW transformation does read [mu_0]: with [mu_0 = [1,1]] the same
    batch gives another array. *)
Example sample_aipw_other_mu_0 :
  yields (aipw_te_transformation (PArr 0) (PArr 1) (PArr 2) (PArr 4) (PArr 4))
    [[1; 2]; [1; 0]; [0.5; 0.5]; [0; 0]; [1; 1]]%float [0; -2]%float.
Proof.
  apply (aipw_present _ _ _ _ _ _ [1; 2]%float [1; 0]%float [0.5; 0.5]%float
           [1; 1]%float [1; 1]%float);
    try reflexivity; eexists; split; reflexivity.
Qed.

(** Arrays that do not line up, and a missing outcome. *)
Example mismatch_ra :
  ra_te_transformation (PArr 0) (PArr 1) PNone (PArr 0) (PArr 0)
    [[1; 2; 3]; [1; 0]]%float
  = (Raise (ValueError "operands could not be broadcast together"),
     [[1; 2; 3]; [1; 0]; [0; 0; 0]]%float).
Proof. reflexivity. Qed.

Example none_ht :
  ht_te_transformation PNone (PArr 0) PNone PNone PNone [[1; 0]]%float
  = (Raise TypeError, [[1; 0]]%float).
Proof. reflexivity. Qed.

(** ** Elements and lengths of the result arrays *)

Lemma ht_array_length ys ws ps :
  length ws = length ys → length ps = length ys →
  length (ht_array ys ws ps) = length ys.
Proof. intros. unfold ht_array. len. Qed.

Lemma aipw_array_length ys ws ps m0s m1s :
  length ws = length ys → length ps = length ys →
  length m0s = length ys → length m1s = length ys →
  length (aipw_array ys ws ps m0s m1s) = length ys.
Proof. intros. unfold aipw_array. len. Qed.

Lemma ra_array_length ys ws m0s m1s :
  length ws = length ys → length m0s = length ys → length m1s = length ys →
  length (ra_array ys ws m0s m1s) = length ys.
Proof. intros. unfold ra_array. len. Qed.

Ltac lookups :=
  repeat first
    [ rewrite lookup_zip_with
    | rewrite list_lookup_fmap
    | match goal with H : _ !! _ = Some _ |- _ => rewrite H end ];
  reflexivity.

Lemma ht_array_lookup ys ws ps i yi wi pi :
  ys !! i = Some yi → ws !! i = Some wi → ps !! i = Some pi →
  ht_array ys ws ps !! i = Some (ht_elem yi wi pi).
Proof. intros. unfold ht_array. lookups. Qed.

Lemma aipw_array_lookup ys ws ps m0s m1s i yi wi pi m0 m1 :
  ys !! i = Some yi → ws !! i = Some wi → ps !! i = Some pi →
  m0s !! i = Some m0 → m1s !! i = Some m1 →
  aipw_array ys ws ps m0s m1s !! i = Some (aipw_elem yi wi pi m0 m1).
Proof. intros. unfold aipw_array. cbv zeta. lookups. Qed.

Lemma ra_array_lookup ys ws m0s m1s i yi wi m0 m1 :
  ys !! i = Some yi → ws !! i = Some wi →
  m0s !! i = Some m0 → m1s !! i = Some m1 →
  ra_array ys ws m0s m1s !! i = Some (ra_elem yi wi m0 m1).
Proof. intros. unfold ra_array. lookups. Qed.

Lemma halves_lookup {A} (ys : list A) i yi :
  ys !! i = Some yi → replicate (length ys) 0.5%float !! i = Some 0.5%float.
Proof. intros H. apply lookup_replicate_2. by eapply lookup_lt_Some. Qed.

(** ** The Horvitz-Thompson transformation *)

(** C3: on an equal-length batch with [p] an array, [ht_te_transformation]
    returns the array of [(w[i]/p[i] - (1-w[i])/(1-p[i])) * y[i]]; with [p]
    absent it computes the same with 0.5 for every [p[i]], which is [2*y[i]]
    at [w[i] = 1] and [-2*y[i]] at [w[i] = 0]. *)
Theorem ht_te_transformation_formula h y w mu_0 mu_1 (ys ws : ndarray) :
  arr h y ys → arr h w ws → length ws = length ys →
  (∀ p (ps : ndarray), arr h p ps → length ps = length ys →
     ∃ rs : ndarray,
       yields (ht_te_transformation y w p mu_0 mu_1) h rs
       ∧ length rs = length ys
       ∧ ∀ i yi wi pi,
           ys !! i = Some yi → ws !! i = Some wi → ps !! i = Some pi →
           rs !! i = Some ((wi / pi - (1 - wi) / (1 - pi)) * yi)%float)
  ∧ (∃ rs : ndarray,
       yields (ht_te_transformation y w PNone mu_0 mu_1) h rs
       ∧ length rs = length ys
       ∧ ∀ i yi wi,
           ys !! i = Some yi → ws !! i = Some wi →
           rs !! i = Some ((wi / 0.5 - (1 - wi) / (1 - 0.5)) * yi)%float
           ∧ (wi = 1%float → rs !! i = Some (2 * yi)%float)
           ∧ (wi = 0%float → rs !! i = Some (-2 * yi)%float)).
Proof.
  intros Hy Hw Ew. split.
  - intros p ps Hp Ep. exists (ht_array ys ws ps).
    split; [by apply ht_present|]. split; [by apply ht_array_length|].
    intros i yi wi pi Hyi Hwi Hpi. by apply ht_array_lookup.
  - exists (ht_array ys ws (replicate (length ys) 0.5%float)).
    split; [by apply ht_absent|].
    split; [apply ht_array_length; [done | by rewrite length_replicate]|].
    intros i yi wi Hyi Hwi.
    pose proof (ht_array_lookup _ _ _ _ _ _ _ Hyi Hwi (halves_lookup _ _ _ Hyi))
      as R.
    split; [exact R|]. split; intros ->; exact R.
Qed.

Lemma ht_te_transformation_formula_witness :
  ∃ rs : ndarray,
    yields (ht_te_transformation (PArr 0) (PArr 1) PNone PNone PNone)
      [[1; 2]; [1; 0]]%float rs
    ∧ length rs = 2
    ∧ ∀ i yi wi,
        [1; 2]%float !! i = Some yi → [1; 0]%float !! i = Some wi →
        rs !! i = Some ((wi / 0.5 - (1 - wi) / (1 - 0.5)) * yi)%float
        ∧ (wi = 1%float → rs !! i = Some (2 * yi)%float)
        ∧ (wi = 0%float → rs !! i = Some (-2 * yi)%float).
Proof.
  refine (proj2 (ht_te_transformation_formula
                   [[1; 2]; [1; 0]]%float (PArr 0) (PArr 1) PNone PNone
                   [1; 2]%float [1; 0]%float _ _ _)).
  - exists 0. split; reflexivity.
  - exists 1. split; reflexivity.
  - reflexivity.
Defined.

(** ** The AIPW transformation *)

(** C2 (as amended): on an equal-length batch with [p] an array,
    [aipw_te_transformation] returns the array of
    [(w1[i]-w0[i])*y[i] + ((1-w1[i])*mu_1[i] - (1-w0[i])*mu_0[i])], the
    difference of the two residual terms being taken before the sum, where
    [w1[i] = w[i]/p[i]] and [w0[i] = (1-w[i])/(1-p[i])]; with [p] absent the
    same is computed with 0.5 for every [p[i]]. *)
Theorem aipw_te_transformation_formula h y w mu_0 mu_1
    (ys ws m0s m1s : ndarray) :
  arr h y ys → arr h w ws → arr h mu_0 m0s → arr h mu_1 m1s →
  length ws = length ys → length m0s = length ys → length m1s = length ys →
  (∀ p (ps : ndarray), arr h p ps → length ps = length ys →
     ∃ rs : ndarray,
       yields (aipw_te_transformation y w p mu_0 mu_1) h rs
       ∧ length rs = length ys
       ∧ ∀ i yi wi pi m0 m1,
           ys !! i = Some yi → ws !! i = Some wi → ps !! i = Some pi →
           m0s !! i = Some m0 → m1s !! i = Some m1 →
           let w1 := (wi / pi)%float in
           let w0 := ((1 - wi) / (1 - pi))%float in
           rs !! i
           = Some ((w1 - w0) * yi + ((1 - w1) * m1 - (1 - w0) * m0))%float)
  ∧ (∃ rs : ndarray,
       yields (aipw_te_transformation y w PNone mu_0 mu_1) h rs
       ∧ length rs = length ys
       ∧ ∀ i yi wi m0 m1,
           ys !! i = Some yi → ws !! i = Some wi →
           m0s !! i = Some m0 → m1s !! i = Some m1 →
           let w1 := (wi / 0.5)%float in
           let w0 := ((1 - wi) / (1 - 0.5))%float in
           rs !! i
           = Some ((w1 - w0) * yi + ((1 - w1) * m1 - (1 - w0) * m0))%float).
Proof.
  intros Hy Hw H0 H1 Ew E0 E1. split.
  - intros p ps Hp Ep. exists (aipw_array ys ws ps m0s m1s).
    split; [by apply aipw_present|]. split; [by apply aipw_array_length|].
    intros i yi wi pi m0 m1 Hyi Hwi Hpi H0i H1i.
    by apply aipw_array_lookup.
  - exists (aipw_array ys ws (replicate (length ys) 0.5%float) m0s m1s).
    split; [by apply aipw_absent|].
    split; [apply aipw_array_length; by rewrite ?length_replicate|].
    intros i yi wi m0 m1 Hyi Hwi H0i H1i.
    exact (aipw_array_lookup _ _ _ _ _ _ _ _ _ _ _
             Hyi Hwi (halves_lookup _ _ _ Hyi) H0i H1i).
Qed.

Lemma aipw_te_transformation_formula_witness :
  ∃ rs : ndarray,
    yields (aipw_te_transformation (PArr 0) (PArr 1) PNone (PArr 2) (PArr 3))
      [[1; 2]; [1; 0]; [0; 0]; [1; 1]]%float rs
    ∧ length rs = 2
    ∧ ∀ i yi wi m0 m1,
        [1; 2]%float !! i = Some yi → [1; 0]%float !! i = Some wi →
        [0; 0]%float !! i = Some m0 → [1; 1]%float !! i = Some m1 →
        let w1 := (wi / 0.5)%float in
        let w0 := ((1 - wi) / (1 - 0.5))%float in
        rs !! i
        = Some ((w1 - w0) * yi + ((1 - w1) * m1 - (1 - w0) * m0))%float.
Proof.
  refine (proj2 (aipw_te_transformation_formula
                   [[1; 2]; [1; 0]; [0; 0]; [1; 1]]%float
                   (PArr 0) (PArr 1) (PArr 2) (PArr 3)
                   [1; 2]%float [1; 0]%float [0; 0]%float [1; 1]%float
                   _ _ _ _ _ _ _)).
  - exists 0. split; reflexivity.
  - exists 1. split; reflexivity.
  - exists 2. split; reflexivity.
  - exists 3. split; reflexivity.
  - reflexivity.
  - reflexivity.
  - reflexivity.
Defined.

(** Read as written, left to right, the formula
    [(w1-w0)*y + (1-w1)*mu_1 - (1-w0)*mu_0] adds the first residual term to
    the leading product before it subtracts the second.  In binary64 that is
    another number: at [y = 5e15], [w = 1], [p = 0.5], [mu_0 = mu_1 = -1] the
    function returns [10000000000000002] and the formula gives
    [10000000000000000]. *)
Lemma aipw_left_to_right_differs :
  let y := 5e15%float in
  let w := 1%float in
  let p := 0.5%float in
  let mu_0 := (-1)%float in
  let mu_1 := (-1)%float in
  let w1 := (w / p)%float in
  let w0 := ((1 - w) / (1 - p))%float in
  yields (aipw_te_transformation (PArr 0) (PArr 1) (PArr 2) (PArr 3) (PArr 4))
    [[y]; [w]; [p]; [mu_0]; [mu_1]] [10000000000000002%float]
  ∧ ((w1 - w0) * y + (1 - w1) * mu_1 - (1 - w0) * mu_0)%float
    = 10000000000000000%float
  ∧ 10000000000000002%float ≠ 10000000000000000%float.
Proof.
  intros y w p mu_0 mu_1 w1 w0. split; [|split].
  - apply (aipw_present [[y]; [w]; [p]; [mu_0]; [mu_1]]
             (PArr 0) (PArr 1) (PArr 2) (PArr 3) (PArr 4)
             [y] [w] [p] [mu_0] [mu_1]);
      try reflexivity; eexists; split; reflexivity.
  - reflexivity.
  - intros E. apply (f_equal Prim2SF) in E. vm_compute in E. discriminate E.
Qed.

(** ** The regression-adjustment transformation *)

(** C4 (as amended): on an equal-length batch [ra_te_transformation] returns
    the array of [w[i]*(y[i]-mu_0[i]) + (1-w[i])*(mu_1[i]-y[i])], computed
    with products, differences and a sum only.  At [w[i] = 1] the element is
    [y[i]-mu_0[i]] provided [mu_1[i]-y[i]] is finite, and at [w[i] = 0] it is
    [mu_1[i]-y[i]] provided [y[i]-mu_0[i]] is finite, in both cases up to the
    sign of a zero ([+0] for [-0]); when that other difference is infinite or
    a NaN, as it is when it overflows, the element is a NaN. *)
Theorem ra_te_transformation_formula h y w p mu_0 mu_1
    (ys ws m0s m1s : ndarray) :
  arr h y ys → arr h w ws → arr h mu_0 m0s → arr h mu_1 m1s →
  length ws = length ys → length m0s = length ys → length m1s = length ys →
  ∃ rs : ndarray,
    yields (ra_te_transformation y w p mu_0 mu_1) h rs
    ∧ length rs = length ys
    ∧ ∀ i yi wi m0 m1,
        ys !! i = Some yi → ws !! i = Some wi →
        m0s !! i = Some m0 → m1s !! i = Some m1 →
        rs !! i = Some (wi * (yi - m0) + (1 - wi) * (m1 - yi))%float
        ∧ (wi = 1%float → is_finite (m1 - yi) = true →
           rs !! i = Some (yi - m0)%float
           ∨ ((yi - m0)%float = (-0)%float ∧ rs !! i = Some 0%float))
        ∧ (wi = 1%float → is_finite (m1 - yi) = false → rs !! i = Some nan)
        ∧ (wi = 0%float → is_finite (yi - m0) = true →
           rs !! i = Some (m1 - yi)%float
           ∨ ((m1 - yi)%float = (-0)%float ∧ rs !! i = Some 0%float))
        ∧ (wi = 0%float → is_finite (yi - m0) = false → rs !! i = Some nan).
Proof.
  intros Hy Hw H0 H1 Ew E0 E1. exists (ra_array ys ws m0s m1s).
  split; [by apply ra_run|]. split; [by apply ra_array_length|].
  intros i yi wi m0 m1 Hyi Hwi H0i H1i.
  pose proof (ra_array_lookup _ _ _ _ _ _ _ _ _ Hyi Hwi H0i H1i) as R.
  split; [exact R|]. rewrite R. clear R.
  repeat split; intros -> F.
  - destruct (ra_elem_treated yi m0 m1 F) as [-> | [Z ->]]; auto.
  - by rewrite ra_elem_treated_nan.
  - destruct (ra_elem_control yi m0 m1 F) as [-> | [Z ->]]; auto.
  - by rewrite ra_elem_control_nan.
Qed.

Lemma ra_te_transformation_formula_witness :
  ∃ rs : ndarray,
    yields (ra_te_transformation (PArr 0) (PArr 1) PNone (PArr 2) (PArr 3))
      [[1; 2]; [1; 0]; [0; 0]; [1; 1]]%float rs
    ∧ length rs = 2
    ∧ ∀ i yi wi m0 m1,
        [1; 2]%float !! i = Some yi → [1; 0]%float !! i = Some wi →
        [0; 0]%float !! i = Some m0 → [1; 1]%float !! i = Some m1 →
        rs !! i = Some (wi * (yi - m0) + (1 - wi) * (m1 - yi))%float
        ∧ (wi = 1%float → is_finite (m1 - yi) = true →
           rs !! i = Some (yi - m0)%float
           ∨ ((yi - m0)%float = (-0)%float ∧ rs !! i = Some 0%float))
        ∧ (wi = 1%float → is_finite (m1 - yi) = false → rs !! i = Some nan)
        ∧ (wi = 0%float → is_finite (yi - m0) = true →
           rs !! i = Some (m1 - yi)%float
           ∨ ((m1 - yi)%float = (-0)%float ∧ rs !! i = Some 0%float))
        ∧ (wi = 0%float → is_finite (yi - m0) = false → rs !! i = Some nan).
Proof.
  refine (ra_te_transformation_formula
            [[1; 2]; [1; 0]; [0; 0]; [1; 1]]%float
            (PArr 0) (PArr 1) PNone (PArr 2) (PArr 3)
            [1; 2]%float [1; 0]%float [0; 0]%float [1; 1]%float
            _ _ _ _ _ _ _).
  - exists 0. split; reflexivity.
  - exists 1. split; reflexivity.
  - exists 2. split; reflexivity.
  - exists 3. split; reflexivity.
  - reflexivity.
  - reflexivity.
  - reflexivity.
Defined.

(** Finite inputs for which the result is not defined: with [w = 1],
    [y = -2^1023], [mu_0 = 0] and [mu_1 = 2^1023] the unused difference
    [mu_1 - y] overflows, its product with [1 - w = 0] is a NaN, and so is
    the result, where [y - mu_0] is [-2^1023]. *)
Lemma ra_finite_inputs_nan :
  let y := (-0x1p+1023)%float in
  let w := 1%float in
  let mu_0 := 0%float in
  let mu_1 := 0x1p+1023%float in
  is_finite y = true ∧ is_finite w = true
  ∧ is_finite mu_0 = true ∧ is_finite mu_1 = true
  ∧ yields (ra_te_transformation (PArr 0) (PArr 1) PNone (PArr 2) (PArr 3))
      [[y]; [w]; [mu_0]; [mu_1]] [nan]
  ∧ (y - mu_0)%float = (-0x1p+1023)%float
  ∧ nan ≠ (-0x1p+1023)%float
  ∧ is_nan nan = true.
Proof.
  intros y w mu_0 mu_1. repeat split; try reflexivity.
  - apply (ra_run [[y]; [w]; [mu_0]; [mu_1]]
             (PArr 0) (PArr 1) PNone (PArr 2) (PArr 3)
             [y] [w] [mu_0] [mu_1]);
      try reflexivity; eexists; split; reflexivity.
  - intros E. apply (f_equal Prim2SF) in E. vm_compute in E. discriminate E.
Qed.

(** ** Properties shared by the three transformations *)

(** C6: on aligned arrays of length [n], with [p] an array of length [n] or
    absent, each transformation returns an array of length [n], for every
    [n] from 0 on. *)
Theorem transformations_output_length h y w p mu_0 mu_1
    (ys ws m0s m1s : ndarray) (n : nat) :
  arr h y ys → arr h w ws → arr h mu_0 m0s → arr h mu_1 m1s →
  length ys = n → length ws = n → length m0s = n → length m1s = n →
  (p = PNone ∨ ∃ ps : ndarray, arr h p ps ∧ length ps = n) →
  (∃ rs : ndarray,
     yields (ht_te_transformation y w p mu_0 mu_1) h rs ∧ length rs = n)
  ∧ (∃ rs : ndarray,
       yields (aipw_te_transformation y w p mu_0 mu_1) h rs ∧ length rs = n)
  ∧ (∃ rs : ndarray,
       yields (ra_te_transformation y w p mu_0 mu_1) h rs ∧ length rs = n).
Proof.
  intros Hy Hw H0 H1 Ey Ew E0 E1 Hp. subst n.
  split; [|split].
  - destruct Hp as [-> | (ps & Hp & Ep)].
    + eexists. split; [by apply ht_absent|].
      apply ht_array_length; [done | by rewrite length_replicate].
    + eexists. split; [by eapply ht_present|]. by apply ht_array_length.
  - destruct Hp as [-> | (ps & Hp & Ep)].
    + eexists. split; [by apply aipw_absent|].
      apply aipw_array_length; by rewrite ?length_replicate.
    + eexists. split; [by eapply aipw_present|]. by apply aipw_array_length.
  - eexists. split; [by apply ra_run|]. by apply ra_array_length.
Qed.

Lemma transformations_output_length_witness :
  (∃ rs : ndarray,
     yields (ht_te_transformation (PArr 0) (PArr 0) PNone (PArr 0) (PArr 0))
       [[]] rs ∧ length rs = 0)
  ∧ (∃ rs : ndarray,
       yields (aipw_te_transformation (PArr 0) (PArr 0) PNone (PArr 0) (PArr 0))
         [[]] rs ∧ length rs = 0)
  ∧ (∃ rs : ndarray,
       yields (ra_te_transformation (PArr 0) (PArr 0) PNone (PArr 0) (PArr 0))
         [[]] rs ∧ length rs = 0).
Proof.
  refine (transformations_output_length
            [[]] (PArr 0) (PArr 0) PNone (PArr 0) (PArr 0) [] [] [] [] 0
            _ _ _ _ _ _ _ _ _).
  - exists 0. split; reflexivity.
  - exists 0. split; reflexivity.
  - exists 0. split; reflexivity.
  - exists 0. split; reflexivity.
  - reflexivity.
  - reflexivity.
  - reflexivity.
  - reflexivity.
  - left. reflexivity.
Defined.

(** C10: no transformation looks at the values it is given.  Whatever
    numbers [w] and [p] hold, on arrays of matching length each function
    returns, without raising, the array its formula gives; a propensity of 0
    or 1 shows up as an infinity or a NaN in that array. *)
Theorem transformations_do_not_validate h y w p mu_0 mu_1
    (ys ws ps m0s m1s : ndarray) :
  arr h y ys → arr h w ws → arr h p ps → arr h mu_0 m0s → arr h mu_1 m1s →
  length ws = length ys → length ps = length ys →
  length m0s = length ys → length m1s = length ys →
  (∃ rs : ndarray,
     yields (ht_te_transformation y w p mu_0 mu_1) h rs
     ∧ ∀ i yi wi pi,
         ys !! i = Some yi → ws !! i = Some wi → ps !! i = Some pi →
         rs !! i = Some ((wi / pi - (1 - wi) / (1 - pi)) * yi)%float)
  ∧ (∃ rs : ndarray,
       yields (aipw_te_transformation y w p mu_0 mu_1) h rs
       ∧ ∀ i yi wi pi m0 m1,
           ys !! i = Some yi → ws !! i = Some wi → ps !! i = Some pi →
           m0s !! i = Some m0 → m1s !! i = Some m1 →
           rs !! i = Some (aipw_elem yi wi pi m0 m1))
  ∧ (∃ rs : ndarray,
       yields (ra_te_transformation y w p mu_0 mu_1) h rs
       ∧ ∀ i yi wi m0 m1,
           ys !! i = Some yi → ws !! i = Some wi →
           m0s !! i = Some m0 → m1s !! i = Some m1 →
           rs !! i = Some (wi * (yi - m0) + (1 - wi) * (m1 - yi))%float)
  ∧ ht_elem 1 1 0 = infinity
  ∧ ht_elem 1 0 1 = neg_infinity
  ∧ ht_elem 1 1 1 = nan
  ∧ aipw_elem 1 1 0 0 1 = nan
  ∧ aipw_elem 1 0 2 3 1 = (-4)%float
  ∧ ra_elem 1 2.5 0 0 = 4%float.
Proof.
  intros Hy Hw Hp H0 H1 Ew Ep E0 E1.
  split; [|split; [|split]].
  - exists (ht_array ys ws ps). split; [by apply ht_present|].
    intros. by apply ht_array_lookup.
  - exists (aipw_array ys ws ps m0s m1s). split; [by apply aipw_present|].
    intros. by apply aipw_array_lookup.
  - exists (ra_array ys ws m0s m1s). split; [by apply ra_run|].
    intros. by apply ra_array_lookup.
  - repeat split; reflexivity.
Qed.

Lemma transformations_do_not_validate_witness :
  ∃ rs : ndarray,
    yields (ht_te_transformation (PArr 0) (PArr 1) (PArr 2) (PArr 3) (PArr 4))
      [[1]; [2.5]; [0]; [0]; [1]]%float rs
    ∧ ∀ i yi wi pi,
        [1]%float !! i = Some yi → [2.5]%float !! i = Some wi →
        [0]%float !! i = Some pi →
        rs !! i = Some ((wi / pi - (1 - wi) / (1 - pi)) * yi)%float.
Proof.
  refine (proj1 (transformations_do_not_validate
                   [[1]; [2.5]; [0]; [0]; [1]]%float
                   (PArr 0) (PArr 1) (PArr 2) (PArr 3) (PArr 4)
                   [1]%float [2.5]%float [0]%float [0]%float [1]%float
                   _ _ _ _ _ _ _ _ _)).
  - exists 0. split; reflexivity.
  - exists 1. split; reflexivity.
  - exists 2. split; reflexivity.
  - exists 3. split; reflexivity.
  - exists 4. split; reflexivity.
  - reflexivity.
  - reflexivity.
  - reflexivity.
  - reflexivity.
Defined.

(** ** The registry *)

Lemma py_in_all (name : pyname) :
  py_in name ALL_TRANSFORMATIONS = true
  ↔ name = NStr "HT" ∨ name = NStr "AIPW" ∨ name = NStr "RA".
Proof.
  unfold py_in, ALL_TRANSFORMATIONS. cbn [existsb].
  rewrite !orb_true_iff. destruct name as [s| |]; cbn [name_eqb].
  - rewrite !String.eqb_eq.
    unfold HT_TRANSFORMATION, AIPW_TRANSFORMATION, RA_TRANSFORMATION.
    split.
    + intros [-> | [-> | [-> | ?]]]; auto. done.
    + intros [[= ->] | [[= ->] | [= ->]]]; auto.
  - split; [intros [? | [? | [? | ?]]] | intros [? | [? | ?]]]; discriminate.
  - split; [intros [? | [? | [? | ?]]] | intros [? | [? | ?]]]; discriminate.
Qed.

Lemma get_valid :
  _get_transformation_function (NStr "HT") = Ok ht_te_transformation
  ∧ _get_transformation_function (NStr "AIPW") = Ok aipw_te_transformation
  ∧ _get_transformation_function (NStr "RA") = Ok ra_te_transformation.
Proof. repeat split; reflexivity. Qed.

Lemma get_invalid (name : pyname) :
  py_in name ALL_TRANSFORMATIONS = false →
  _get_transformation_function name
  = Raise (ValueError (invalid_name_prefix ++ py_format name)).
Proof. intros E. unfold _get_transformation_function. by rewrite E. Qed.

(** C1: the lookup raises [ValueError] exactly for the names other than
    "HT", "AIPW" and "RA"; for these three it returns the transformation of
    that name, a function value that has not been applied to anything. *)
Theorem get_transformation_function_spec :
  (∀ name : pyname,
     (∃ msg, _get_transformation_function name = Raise (ValueError msg))
     ↔ ¬ (name = NStr "HT" ∨ name = NStr "AIPW" ∨ name = NStr "RA"))
  ∧ _get_transformation_function (NStr "HT") = Ok ht_te_transformation
  ∧ _get_transformation_function (NStr "AIPW") = Ok aipw_te_transformation
  ∧ _get_transformation_function (NStr "RA") = Ok ra_te_transformation.
Proof.
  split; [|exact get_valid].
  intros name. rewrite <- py_in_all. split.
  - intros [msg E] In. apply py_in_all in In.
    destruct get_valid as (Eh & Ea & Er).
    destruct In as [-> | [-> | ->]]; congruence.
  - intros Out. apply not_true_is_false in Out.
    eexists. by apply get_invalid.
Qed.

Lemma string_app_empty_r (s : string) : (s ++ "")%string = s.
Proof.
  induction s as [|c s IH]; [reflexivity|].
  change (String c (s ++ "")%string = String c s). by rewrite IH.
Qed.

(** C5: for a name outside the three, the message of the error ends with
    the value that was passed, as [format] prints it (a string as it is, so
    "bogus" for "bogus"), and names the list of valid identifiers,
    [ALL_TRANSFORMATIONS]. *)
Theorem invalid_name_message (name : pyname) :
  ¬ (name = NStr "HT" ∨ name = NStr "AIPW" ∨ name = NStr "RA") →
  ∃ msg : string,
    _get_transformation_function name = Raise (ValueError msg)
    ∧ msg = ("Parameter first stage should be in catenets.models.transformations.ALL_TRANSFORMATIONS. You passed "
             ++ py_format name)%string
    ∧ contains (py_format name) msg
    ∧ contains "catenets.models.transformations.ALL_TRANSFORMATIONS" msg
    ∧ ∀ s, name = NStr s → contains s msg.
Proof.
  intros Out. rewrite <- py_in_all in Out. apply not_true_is_false in Out.
  eexists. split; [by apply get_invalid|]. split; [reflexivity|].
  assert (contains (py_format name) (invalid_name_prefix ++ py_format name))
    as Hc.
  { exists invalid_name_prefix, ""%string.
    by rewrite string_app_empty_r. }
  split; [exact Hc|]. split.
  - exists "Parameter first stage should be in "%string,
      (". You passed " ++ py_format name)%string.
    reflexivity.
  - intros s ->. exact Hc.
Qed.

Lemma invalid_name_message_witness :
  ∃ msg : string,
    _get_transformation_function (NStr "bogus") = Raise (ValueError msg)
    ∧ msg = ("Parameter first stage should be in catenets.models.transformations.ALL_TRANSFORMATIONS. You passed "
             ++ py_format (NStr "bogus"))%string
    ∧ contains (py_format (NStr "bogus")) msg
    ∧ contains "catenets.models.transformations.ALL_TRANSFORMATIONS" msg
    ∧ ∀ s, NStr "bogus" = NStr s → contains s msg.
Proof.
  apply (invalid_name_message (NStr "bogus")).
  intros [H | [H | H]]; discriminate H.
Defined.

(** C9: the list of names and the dictionary have the same three keys, so
    the subscript in [_get_transformation_function] finds an entry for every
    name that passed the membership test, and the lookup never ends in a
    [KeyError]. *)
Theorem registry_keys_agree :
  dom TRANSFORMATION_DICT = list_to_set ALL_TRANSFORMATIONS
  ∧ dom TRANSFORMATION_DICT = ({["HT"; "AIPW"; "RA"]} : gset string)
  ∧ (∀ s : string,
       s ∈ ALL_TRANSFORMATIONS → is_Some (TRANSFORMATION_DICT !! s))
  ∧ (∀ name : pyname,
       py_in name ALL_TRANSFORMATIONS = true →
       ∃ f, dict_getitem TRANSFORMATION_DICT name = Ok f)
  ∧ (∀ name : pyname, _get_transformation_function name ≠ Raise KeyError).
Proof.
  assert (dom TRANSFORMATION_DICT = ({["HT"; "AIPW"; "RA"]} : gset string))
    as D.
  { unfold TRANSFORMATION_DICT. rewrite !dom_insert_L, dom_empty_L.
    unfold HT_TRANSFORMATION, AIPW_TRANSFORMATION, RA_TRANSFORMATION.
    set_solver. }
  assert (∀ name : pyname,
            py_in name ALL_TRANSFORMATIONS = true →
            ∃ f, dict_getitem TRANSFORMATION_DICT name = Ok f) as G.
  { intros name In. apply py_in_all in In.
    destruct In as [-> | [-> | ->]]; eexists; reflexivity. }
  split; [|split; [exact D|split; [|split; [exact G|]]]].
  - rewrite D. unfold ALL_TRANSFORMATIONS.
    unfold HT_TRANSFORMATION, AIPW_TRANSFORMATION, RA_TRANSFORMATION.
    set_solver.
  - intros s In. unfold ALL_TRANSFORMATIONS in In.
    unfold HT_TRANSFORMATION, AIPW_TRANSFORMATION, RA_TRANSFORMATION in In.
    set_unfold in In.
    destruct In as [-> | [-> | [-> | ?]]]; [eexists; reflexivity ..| done].
  - intros name. unfold _get_transformation_function.
    destruct (py_in name ALL_TRANSFORMATIONS) eqn:In; [|done].
    destruct (G name In) as [f ->]. done.
Qed.

(** ** Two runs on the same inputs *)

Lemma same_value_mono h h' h1 h1' v v' :
  h `prefix_of` h1 → h' `prefix_of` h1' →
  same_value h h' v v' → same_value h1 h1' v v'.
Proof.
  intros [l ->] [l' ->]. destruct v, v'; try done.
  intros (xs & E & E'). exists xs.
  split; by apply lookup_app_l_Some.
Qed.

Lemma same_value_valid h h1 v :
  h `prefix_of` h1 → valid h v → same_value h h1 v v.
Proof.
  intros [l ->]. destruct v as [|a]; [done|].
  intros [xs E]. exists xs. split; [done | by apply lookup_app_l_Some].
Qed.

Lemma same_outcome_bind {A B} (RA : heap → heap → A → A → Prop)
    (RB : heap → heap → B → B → Prop) (c c' : M A) (k k' : A → M B) h h' :
  same_outcome RA h h' (c h) (c' h') →
  (∀ a a' h1 h1',
     h `prefix_of` h1 → h' `prefix_of` h1' → RA h1 h1' a a' →
     same_outcome RB h1 h1' (k a h1) (k' a' h1')) →
  same_outcome RB h h' ((c ≫= k) h) ((c' ≫= k') h').
Proof.
  unfold same_outcome, mbind, M_bind.
  destruct (c h) as [[a|e] h1], (c' h') as [[a'|e'] h1']; simpl;
    intros (P & P' & R) K; try done.
  destruct (K a a' h1 h1' P P' R) as (Q & Q' & S).
  split; [by etrans|]. split; [by etrans|done].
Qed.

Lemma same_outcome_ret {A} (R : heap → heap → A → A → Prop) h h' a a' :
  R h h' a a' → same_outcome R h h' ((mret a : M A) h) ((mret a' : M A) h').
Proof. intros HR. by repeat split. Qed.

Lemma as_array_sim h h' v v' :
  same_value h h' v v' →
  same_outcome (λ _ _ xs xs', xs = xs') h h' (as_array v h) (as_array v' h').
Proof.
  destruct v as [|a], v' as [|a']; try done.
  intros (xs & E & E'). unfold as_array. rewrite E, E'. by repeat split.
Qed.

Lemma alloc_sim h h' xs :
  same_outcome same_value h h' (alloc xs h) (alloc xs h').
Proof.
  unfold alloc. repeat split; simpl; try by apply prefix_app_r.
  exists xs. split; by apply list_lookup_middle.
Qed.

Lemma np_binop_sim f h h' a a' b b' :
  same_value h h' a a' → same_value h h' b b' →
  same_outcome same_value h h' (np_binop f a b h) (np_binop f a' b' h').
Proof.
  intros Ha Hb. unfold np_binop.
  eapply same_outcome_bind; [by apply as_array_sim|].
  intros xs ? h1 h1' P P' <-.
  eapply same_outcome_bind;
    [apply as_array_sim; by eapply same_value_mono|].
  intros ys ? h2 h2' Q Q' <-.
  eapply (same_outcome_bind (λ _ _ zs zs', zs = zs')).
  - unfold lift. repeat split; simpl; try done. by destruct (broadcast f xs ys).
  - intros zs ? h3 h3' _ _ <-. apply alloc_sim.
Qed.

Lemma np_rsub_sim c h h' a a' :
  same_value h h' a a' →
  same_outcome same_value h h' (np_rsub c a h) (np_rsub c a' h').
Proof.
  intros Ha. unfold np_rsub.
  eapply same_outcome_bind; [by apply as_array_sim|].
  intros xs ? h1 h1' _ _ <-. apply alloc_sim.
Qed.

Lemma default_p_sim h h' (y y' p p' : pyval) :
  same_value h h' y y' → same_value h h' p p' →
  same_outcome same_value h h' (default_p y p h) (default_p y' p' h').
Proof.
  intros Hy Hp. destruct p as [|a], p' as [|a']; [| done | done |]; simpl.
  - unfold py_len.
    eapply (same_outcome_bind (λ _ _ (n n' : nat), n = n')).
    + eapply same_outcome_bind; [by apply as_array_sim|].
      intros xs ? h1 h1' _ _ <-. by apply same_outcome_ret.
    + intros n ? h1 h1' _ _ <-. apply alloc_sim.
  - by apply (same_outcome_ret same_value).
Qed.

(** One statement in two runs: afterwards every value known so far is read
    in the two new stores. *)
Ltac sim_step :=
  eapply same_outcome_bind;
  [ first [ apply np_binop_sim | apply np_rsub_sim ]; assumption
  | let P := fresh "P" in
    let P' := fresh "P'" in
    intros ? ? ? ? P P' ?;
    repeat match goal with
           | H : same_value _ _ _ _ |- _ =>
               apply (same_value_mono _ _ _ _ _ _ P P') in H
           end;
    clear P P' ].

Lemma ht_sim h h' y y' w w' p p' mu_0 mu_0' mu_1 mu_1' :
  same_value h h' y y' → same_value h h' w w' → same_value h h' p p' →
  same_outcome same_value h h'
    (ht_te_transformation y w p mu_0 mu_1 h)
    (ht_te_transformation y' w' p' mu_0' mu_1' h').
Proof.
  intros Hy Hw Hp. unfold ht_te_transformation.
  eapply same_outcome_bind; [by apply default_p_sim|].
  intros q q' h1 h1' P P' Hq.
  apply (same_value_mono _ _ _ _ _ _ P P') in Hy, Hw. clear P P' Hp.
  do 5 sim_step.
  by apply np_binop_sim.
Qed.

Lemma aipw_sim h h' y y' w w' p p' mu_0 mu_0' mu_1 mu_1' :
  same_value h h' y y' → same_value h h' w w' → same_value h h' p p' →
  same_value h h' mu_0 mu_0' → same_value h h' mu_1 mu_1' →
  same_outcome same_value h h'
    (aipw_te_transformation y w p mu_0 mu_1 h)
    (aipw_te_transformation y' w' p' mu_0' mu_1' h').
Proof.
  intros Hy Hw Hp H0 H1. unfold aipw_te_transformation.
  eapply same_outcome_bind; [by apply default_p_sim|].
  intros q q' h1 h1' P P' Hq.
  apply (same_value_mono _ _ _ _ _ _ P P') in Hy, Hw, H0, H1.
  clear P P' Hp.
  do 11 sim_step.
  by apply np_binop_sim.
Qed.

Lemma ra_sim h h' y y' w w' p p' mu_0 mu_0' mu_1 mu_1' :
  same_value h h' y y' → same_value h h' w w' →
  same_value h h' mu_0 mu_0' → same_value h h' mu_1 mu_1' →
  same_outcome same_value h h'
    (ra_te_transformation y w p mu_0 mu_1 h)
    (ra_te_transformation y' w' p' mu_0' mu_1' h').
Proof.
  intros Hy Hw H0 H1. unfold ra_te_transformation.
  do 5 sim_step.
  by apply np_binop_sim.
Qed.

(** The outcome of a transformation is a function of the contents of its
    arguments: in two stores that hold the same inputs, at whatever
    addresses, the two runs end alike and neither changes an object that
    was there. *)
Lemma transformation_sim (f : te_function) h h' y y' w w' p p'
    mu_0 mu_0' mu_1 mu_1' :
  f ∈ [ht_te_transformation; aipw_te_transformation; ra_te_transformation] →
  same_value h h' y y' → same_value h h' w w' → same_value h h' p p' →
  same_value h h' mu_0 mu_0' → same_value h h' mu_1 mu_1' →
  same_outcome same_value h h'
    (f y w p mu_0 mu_1 h) (f y' w' p' mu_0' mu_1' h').
Proof.
  intros In Hy Hw Hp H0 H1. set_unfold in In.
  destruct In as [-> | [-> | [-> | ?]]]; [| | | done].
  - by apply ht_sim.
  - by apply aipw_sim.
  - by apply ra_sim.
Qed.

(** C7: the result of [ht_te_transformation] is the same whatever is passed
    for [mu_0] and [mu_1], and that of [ra_te_transformation] whatever is
    passed for [p]: same value or exception, same store. *)
Theorem unused_arguments_do_not_matter :
  (∀ (y w p mu_0 mu_1 mu_0' mu_1' : pyval) (h : heap),
     ht_te_transformation y w p mu_0 mu_1 h
     = ht_te_transformation y w p mu_0' mu_1' h)
  ∧ (∀ (y w p p' mu_0 mu_1 : pyval) (h : heap),
       ra_te_transformation y w p mu_0 mu_1 h
       = ra_te_transformation y w p' mu_0 mu_1 h).
Proof. split; reflexivity. Qed.

(** C8: a transformation called twice on the same arguments, the second
    call in the store the first one left, gives twice the same result: the
    same exception, or arrays with the same contents, element by element
    and bit by bit.  Neither call changes an object of the store it
    started in; each only adds the arrays it creates. *)
Theorem transformations_pure_and_deterministic (f : te_function)
    h y w p mu_0 mu_1 :
  f ∈ [ht_te_transformation; aipw_te_transformation; ra_te_transformation] →
  valid h y → valid h w → valid h p → valid h mu_0 → valid h mu_1 →
  let first := f y w p mu_0 mu_1 h in
  let second := f y w p mu_0 mu_1 first.2 in
  h `prefix_of` first.2
  ∧ first.2 `prefix_of` second.2
  ∧ (∀ (a : addr) (xs : ndarray),
       h !! a = Some xs → first.2 !! a = Some xs ∧ second.2 !! a = Some xs)
  ∧ match first.1, second.1 with
    | Ok v1, Ok v2 => same_value first.2 second.2 v1 v2
    | Raise e1, Raise e2 => e1 = e2
    | _, _ => False
    end.
Proof.
  intros In Vy Vw Vp V0 V1 first second.
  assert (h `prefix_of` first.2) as P.
  { eapply (transformation_sim f h h); [done | by apply same_value_valid ..]. }
  destruct (transformation_sim f h first.2 y y w w p p mu_0 mu_0 mu_1 mu_1 In)
    as (_ & Q & R); [by apply same_value_valid ..|].
  fold first second in Q, R.
  split; [done|]. split; [done|]. split; [|done].
  intros a xs E. destruct P as [l El]. destruct Q as [l' El'].
  rewrite El', El. split.
  - by apply lookup_app_l_Some.
  - by apply lookup_app_l_Some, lookup_app_l_Some.
Qed.

Lemma transformations_pure_and_deterministic_witness :
  let h := [[1; 2]; [1; 0]; [0; 0]; [1; 1]]%float in
  let first :=
    aipw_te_transformation (PArr 0) (PArr 1) PNone (PArr 2) (PArr 3) h in
  let second :=
    aipw_te_transformation (PArr 0) (PArr 1) PNone (PArr 2) (PArr 3) first.2 in
  h `prefix_of` first.2
  ∧ first.2 `prefix_of` second.2
  ∧ (∀ (a : addr) (xs : ndarray),
       h !! a = Some xs → first.2 !! a = Some xs ∧ second.2 !! a = Some xs)
  ∧ match first.1, second.1 with
    | Ok v1, Ok v2 => same_value first.2 second.2 v1 v2
    | Raise e1, Raise e2 => e1 = e2
    | _, _ => False
    end.
Proof.
  intros h.
  apply (transformations_pure_and_deterministic aipw_te_transformation h
           (PArr 0) (PArr 1) PNone (PArr 2) (PArr 3)).
  - apply list_elem_of_further, list_elem_of_here.
  - by eexists.
  - by eexists.
  - exact I.
  - by eexists.
  - by eexists.
Defined.

(** ** Batches that are not aligned *)

Lemma broadcast_one_r f (xs : ndarray) y :
  broadcast f xs [y] = Ok ((λ x, f x y) <$> xs).
Proof.
  unfold broadcast. destruct (decide (length xs = length [y])) as [E|E].
  - destruct xs as [|x [|x' xs]]; try done.
  - destruct xs as [|x [|x' xs]]; try done.
Qed.

Lemma broadcast_one_l f x (ys : ndarray) :
  broadcast f [x] ys = Ok (f x <$> ys).
Proof.
  unfold broadcast. destruct (decide (length [x] = length ys)) as [E|E].
  - destruct ys as [|y [|y' ys]]; try done.
  - done.
Qed.

Lemma broadcast_mismatch f (xs ys : ndarray) :
  length xs ≠ length ys → length xs ≠ 1 → length ys ≠ 1 →
  broadcast f xs ys
  = Raise (ValueError "operands could not be broadcast together").
Proof.
  intros E Ex Ey. unfold broadcast. rewrite decide_False by done.
  destruct xs as [|x [|x' xs]], ys as [|y [|y' ys]]; done.
Qed.

Lemma np_binop_run_gen f h a b xs ys zs :
  arr h a xs → arr h b ys → broadcast f xs ys = Ok zs →
  np_binop f a b h = (Ok (PArr (length h)), h ++ [zs]).
Proof.
  intros Ha Hb E. unfold np_binop.
  rewrite (bind_ok _ _ _ _ _ (as_array_run _ _ _ Ha)).
  rewrite (bind_ok _ _ _ _ _ (as_array_run _ _ _ Hb)).
  unfold lift at 1. unfold mbind at 1, M_bind at 1.
  by rewrite E.
Qed.

Lemma np_binop_raise f h a b xs ys e :
  arr h a xs → arr h b ys → broadcast f xs ys = Raise e →
  np_binop f a b h = (Raise e, h).
Proof.
  intros Ha Hb E. unfold np_binop.
  rewrite (bind_ok _ _ _ _ _ (as_array_run _ _ _ Ha)).
  rewrite (bind_ok _ _ _ _ _ (as_array_run _ _ _ Hb)).
  unfold lift at 1. unfold mbind at 1, M_bind at 1.
  by rewrite E.
Qed.

Lemma bind_raise {A B} (c : M A) (k : A → M B) h e h' :
  c h = (Raise e, h') → (c ≫= k) h = (Raise e, h').
Proof. unfold mbind, M_bind. by intros ->. Qed.

(** A statement whose operands may have length 1. *)
Ltac bstep :=
  first
    [ erewrite bind_ok;
      [| eapply np_binop_run_gen;
         [arrs | arrs
         | first [ apply broadcast_one_r | apply broadcast_one_l
                 | apply broadcast_same; len ] ] ]
    | erewrite bind_ok; [| eapply np_rsub_run; arrs] ].

Ltac last_bstep :=
  eexists; split;
  [| eapply np_binop_run_gen;
     [arrs | arrs
     | first [ apply broadcast_one_r | apply broadcast_one_l
             | apply broadcast_same; len ] ] ];
  repeat apply prefix_app_r; reflexivity.

Lemma ht_one_propensity h y w p mu_0 mu_1 (ys ws : ndarray) c :
  arr h y ys → arr h w ws → arr h p [c] → length ws = length ys →
  yields (ht_te_transformation y w p mu_0 mu_1) h
    (ht_array ys ws (replicate (length ys) c)).
Proof.
  intros Hy Hw Hp Ew. unfold ht_array.
  rewrite fmap_replicate.
  rewrite (zip_with_replicate_r_eq _ (length ys) c ws) by done.
  rewrite (zip_with_replicate_r_eq _ (length ys) _ (PrimFloat.sub 1 <$> ws))
    by len.
  unfold yields, ht_te_transformation.
  erewrite bind_ok by (eapply default_p_present; eauto).
  do 5 bstep. last_bstep.
Qed.

Lemma aipw_one_propensity h y w p mu_0 mu_1 (ys ws m0s m1s : ndarray) c :
  arr h y ys → arr h w ws → arr h p [c] →
  arr h mu_0 m0s → arr h mu_1 m1s →
  length ws = length ys → length m0s = length ys → length m1s = length ys →
  yields (aipw_te_transformation y w p mu_0 mu_1) h
    (aipw_array ys ws (replicate (length ys) c) m0s m1s).
Proof.
  intros Hy Hw Hp H0 H1 Ew E0 E1. unfold aipw_array. cbv zeta.
  rewrite fmap_replicate.
  rewrite (zip_with_replicate_r_eq _ (length ys) c ws) by done.
  rewrite (zip_with_replicate_r_eq _ (length ys) _ (PrimFloat.sub 1 <$> ws))
    by len.
  unfold yields, aipw_te_transformation.
  erewrite bind_ok by (eapply default_p_present; eauto).
  do 11 bstep. last_bstep.
Qed.

(** X1: a propensity array with a single element [c] is applied to every
    unit: the HT and AIPW transformations return the arrays of their
    formulas with [p[i] = c] throughout, of the length of [y]; for
    [c = 0.5] these are the arrays returned when [p] is absent. *)
Theorem one_element_propensity_is_broadcast h y w p mu_0 mu_1
    (ys ws m0s m1s : ndarray) (c : float) :
  arr h y ys → arr h w ws → arr h p [c] →
  arr h mu_0 m0s → arr h mu_1 m1s →
  length ws = length ys → length m0s = length ys → length m1s = length ys →
  ∃ rs_ht rs_aipw : ndarray,
    yields (ht_te_transformation y w p mu_0 mu_1) h rs_ht
    ∧ yields (aipw_te_transformation y w p mu_0 mu_1) h rs_aipw
    ∧ length rs_ht = length ys ∧ length rs_aipw = length ys
    ∧ (∀ i yi wi m0 m1,
         ys !! i = Some yi → ws !! i = Some wi →
         m0s !! i = Some m0 → m1s !! i = Some m1 →
         rs_ht !! i = Some ((wi / c - (1 - wi) / (1 - c)) * yi)%float
         ∧ rs_aipw !! i = Some (aipw_elem yi wi c m0 m1))
    ∧ (c = 0.5%float →
       yields (ht_te_transformation y w PNone mu_0 mu_1) h rs_ht
       ∧ yields (aipw_te_transformation y w PNone mu_0 mu_1) h rs_aipw).
Proof.
  intros Hy Hw Hp H0 H1 Ew E0 E1.
  exists (ht_array ys ws (replicate (length ys) c)),
    (aipw_array ys ws (replicate (length ys) c) m0s m1s).
  split; [by apply ht_one_propensity|].
  split; [by apply aipw_one_propensity|].
  split; [apply ht_array_length; by rewrite ?length_replicate|].
  split; [apply aipw_array_length; by rewrite ?length_replicate|].
  split.
  - intros i yi wi m0 m1 Hyi Hwi H0i H1i.
    assert (replicate (length ys) c !! i = Some c) as Hc
      by (apply lookup_replicate_2; by eapply lookup_lt_Some).
    split.
    + exact (ht_array_lookup _ _ _ _ _ _ _ Hyi Hwi Hc).
    + exact (aipw_array_lookup _ _ _ _ _ _ _ _ _ _ _ Hyi Hwi Hc H0i H1i).
  - intros ->. split; [by apply ht_absent | by apply aipw_absent].
Qed.

Lemma one_element_propensity_is_broadcast_witness :
  ∃ rs_ht rs_aipw : ndarray,
    yields (ht_te_transformation (PArr 0) (PArr 1) (PArr 2) (PArr 3) (PArr 4))
      [[1; 2]; [1; 0]; [0.25]; [0; 0]; [1; 1]]%float rs_ht
    ∧ yields
        (aipw_te_transformation (PArr 0) (PArr 1) (PArr 2) (PArr 3) (PArr 4))
        [[1; 2]; [1; 0]; [0.25]; [0; 0]; [1; 1]]%float rs_aipw
    ∧ length rs_ht = 2 ∧ length rs_aipw = 2
    ∧ (∀ i yi wi m0 m1,
         [1; 2]%float !! i = Some yi → [1; 0]%float !! i = Some wi →
         [0; 0]%float !! i = Some m0 → [1; 1]%float !! i = Some m1 →
         rs_ht !! i = Some ((wi / 0.25 - (1 - wi) / (1 - 0.25)) * yi)%float
         ∧ rs_aipw !! i = Some (aipw_elem yi wi 0.25 m0 m1))
    ∧ (0.25%float = 0.5%float →
       yields (ht_te_transformation (PArr 0) (PArr 1) PNone (PArr 3) (PArr 4))
         [[1; 2]; [1; 0]; [0.25]; [0; 0]; [1; 1]]%float rs_ht
       ∧ yields
           (aipw_te_transformation (PArr 0) (PArr 1) PNone (PArr 3) (PArr 4))
           [[1; 2]; [1; 0]; [0.25]; [0; 0]; [1; 1]]%float rs_aipw).
Proof.
  refine (one_element_propensity_is_broadcast
            [[1; 2]; [1; 0]; [0.25]; [0; 0]; [1; 1]]%float
            (PArr 0) (PArr 1) (PArr 2) (PArr 3) (PArr 4)
            [1; 2]%float [1; 0]%float [0; 0]%float [1; 1]%float 0.25%float
            _ _ _ _ _ _ _ _).
  - exists 0. split; reflexivity.
  - exists 1. split; reflexivity.
  - exists 2. split; reflexivity.
  - exists 3. split; reflexivity.
  - exists 4. split; reflexivity.
  - reflexivity.
  - reflexivity.
  - reflexivity.
Defined.

Lemma ra_one_outcome h y w p mu_0 mu_1 (ws m0s m1s : ndarray) c :
  arr h y [c] → arr h w ws → arr h mu_0 m0s → arr h mu_1 m1s →
  length m0s = length ws → length m1s = length ws →
  yields (ra_te_transformation y w p mu_0 mu_1) h
    (ra_array (replicate (length ws) c) ws m0s m1s).
Proof.
  intros Hy Hw H0 H1 E0 E1. unfold ra_array.
  rewrite (zip_with_replicate_l _ (length ws) c m0s) by lia.
  rewrite (zip_with_replicate_r_eq _ (length ws) c m1s) by done.
  unfold yields, ra_te_transformation.
  do 5 bstep. last_bstep.
Qed.

(** X2: the result need not have the length of [y].  With a one-element
    outcome array [[c]] and [w], [mu_0], [mu_1] of length [n], the
    regression adjustment returns [n] elements, the outcome [c] being used
    for every unit. *)
Theorem one_element_outcome_is_broadcast h y w p mu_0 mu_1
    (ws m0s m1s : ndarray) (c : float) :
  arr h y [c] → arr h w ws → arr h mu_0 m0s → arr h mu_1 m1s →
  length m0s = length ws → length m1s = length ws →
  ∃ rs : ndarray,
    yields (ra_te_transformation y w p mu_0 mu_1) h rs
    ∧ length rs = length ws
    ∧ ∀ i wi m0 m1,
        ws !! i = Some wi → m0s !! i = Some m0 → m1s !! i = Some m1 →
        rs !! i = Some (wi * (c - m0) + (1 - wi) * (m1 - c))%float.
Proof.
  intros Hy Hw H0 H1 E0 E1.
  exists (ra_array (replicate (length ws) c) ws m0s m1s).
  split; [by apply ra_one_outcome|].
  split; [rewrite ra_array_length; by rewrite ?length_replicate|].
  intros i wi m0 m1 Hwi H0i H1i.
  assert (replicate (length ws) c !! i = Some c) as Hc
    by (apply lookup_replicate_2; by eapply lookup_lt_Some).
  exact (ra_array_lookup _ _ _ _ _ _ _ _ _ Hc Hwi H0i H1i).
Qed.

Lemma one_element_outcome_is_broadcast_witness :
  ∃ rs : ndarray,
    yields (ra_te_transformation (PArr 0) (PArr 1) PNone (PArr 2) (PArr 3))
      [[5]; [1; 0; 1]; [0; 0; 0]; [1; 1; 1]]%float rs
    ∧ length rs = 3
    ∧ ∀ i wi m0 m1,
        [1; 0; 1]%float !! i = Some wi → [0; 0; 0]%float !! i = Some m0 →
        [1; 1; 1]%float !! i = Some m1 →
        rs !! i = Some (wi * (5 - m0) + (1 - wi) * (m1 - 5))%float.
Proof.
  refine (one_element_outcome_is_broadcast
            [[5]; [1; 0; 1]; [0; 0; 0]; [1; 1; 1]]%float
            (PArr 0) (PArr 1) PNone (PArr 2) (PArr 3)
            [1; 0; 1]%float [0; 0; 0]%float [1; 1; 1]%float 5%float
            _ _ _ _ _ _).
  - exists 0. split; reflexivity.
  - exists 1. split; reflexivity.
  - exists 2. split; reflexivity.
  - exists 3. split; reflexivity.
  - reflexivity.
  - reflexivity.
Defined.

(** ** Arguments that raise *)



Lemma misaligned_propensity_raises_aux h y w p mu_0 mu_1 (ws ps : ndarray) :
  arr h w ws → arr h p ps →
  length ws ≠ length ps → length ws ≠ 1 → length ps ≠ 1 →
  ht_te_transformation y w p mu_0 mu_1 h
  = (Raise (ValueError "operands could not be broadcast together"), h)
  ∧ aipw_te_transformation y w p mu_0 mu_1 h
    = (Raise (ValueError "operands could not be broadcast together"), h).
Proof.
  intros Hw Hp E Ew Ep.
  split; [unfold ht_te_transformation | unfold aipw_te_transformation];
    (erewrite bind_ok by (eapply default_p_present; eauto));
    (erewrite bind_raise; [reflexivity|]);
    (eapply np_binop_raise; [done | done | by apply broadcast_mismatch]).
Qed.

(** X3: when [w] and an array [p] have different lengths, neither of
    them 1, the HT and AIPW transformations raise [ValueError] at their first
    operation, [w / p]: whatever [y], [mu_0] and [mu_1] are, and without
    having created an array. *)
Theorem misaligned_propensity_raises h y w p mu_0 mu_1 (ws ps : ndarray) :
  arr h w ws → arr h p ps →
  length ws ≠ length ps → length ws ≠ 1 → length ps ≠ 1 →
  ∃ msg,
    ht_te_transformation y w p mu_0 mu_1 h = (Raise (ValueError msg), h)
    ∧ aipw_te_transformation y w p mu_0 mu_1 h = (Raise (ValueError msg), h).
Proof.
  intros Hw Hp E Ew Ep. eexists.
  by apply (misaligned_propensity_raises_aux h y w p mu_0 mu_1 ws ps).
Qed.

Lemma misaligned_propensity_raises_witness :
  ∃ msg,
    ht_te_transformation PNone (PArr 0) (PArr 1) PNone PNone
      [[1; 0; 1]; [0.5; 0.5]]%float
    = (Raise (ValueError msg), [[1; 0; 1]; [0.5; 0.5]]%float)
    ∧ aipw_te_transformation PNone (PArr 0) (PArr 1) PNone PNone
        [[1; 0; 1]; [0.5; 0.5]]%float
      = (Raise (ValueError msg), [[1; 0; 1]; [0.5; 0.5]]%float).
Proof.
  refine (misaligned_propensity_raises
            [[1; 0; 1]; [0.5; 0.5]]%float PNone (PArr 0) (PArr 1) PNone PNone
            [1; 0; 1]%float [0.5; 0.5]%float _ _ _ _ _).
  - exists 0. split; reflexivity.
  - exists 1. split; reflexivity.
  - simpl. lia.
  - simpl. lia.
  - simpl. lia.
Defined.

(** X4: with [p] absent the propensity array takes the length of [y], so a
    [w] of another length (neither length being 1) makes the HT and AIPW
    transformations raise [ValueError]; the array of halves has been created
    by then and nothing else. *)
Theorem misaligned_treatment_raises h y w mu_0 mu_1 (ys ws : ndarray) :
  arr h y ys → arr h w ws →
  length ws ≠ length ys → length ws ≠ 1 → length ys ≠ 1 →
  ∃ msg,
    ht_te_transformation y w PNone mu_0 mu_1 h
    = (Raise (ValueError msg), h ++ [replicate (length ys) 0.5%float])
    ∧ aipw_te_transformation y w PNone mu_0 mu_1 h
      = (Raise (ValueError msg), h ++ [replicate (length ys) 0.5%float]).
Proof.
  intros Hy Hw E Ew Ey. eexists.
  rewrite (ht_absent_unfold _ _ _ _ _ _ Hy).
  rewrite (aipw_absent_unfold _ _ _ _ _ _ Hy).
  apply (misaligned_propensity_raises_aux
           (h ++ [replicate (length ys) 0.5%float]) y w (PArr (length h))
           mu_0 mu_1 ws (replicate (length ys) 0.5%float));
    [arrs | arrs | len ..].
Qed.

Lemma misaligned_treatment_raises_witness :
  ∃ msg,
    ht_te_transformation (PArr 0) (PArr 1) PNone PNone PNone
      [[1; 2]; [1; 0; 1]]%float
    = (Raise (ValueError msg), [[1; 2]; [1; 0; 1]; [0.5; 0.5]]%float)
    ∧ aipw_te_transformation (PArr 0) (PArr 1) PNone PNone PNone
        [[1; 2]; [1; 0; 1]]%float
      = (Raise (ValueError msg), [[1; 2]; [1; 0; 1]; [0.5; 0.5]]%float).
Proof.
  refine (misaligned_treatment_raises
            [[1; 2]; [1; 0; 1]]%float (PArr 0) (PArr 1) PNone PNone
            [1; 2]%float [1; 0; 1]%float _ _ _ _ _).
  - exists 0. split; reflexivity.
  - exists 1. split; reflexivity.
  - simpl. lia.
  - simpl. lia.
  - simpl. lia.
Defined.

(** X5: the regression adjustment starts with [y - mu_0]: when these two
    arrays have different lengths, neither of them 1, it raises
    [ValueError] whatever [w], [p] and [mu_1] are, and the store is as it
    was. *)
Theorem misaligned_outcome_model_raises h y w p mu_0 mu_1 (ys m0s : ndarray) :
  arr h y ys → arr h mu_0 m0s →
  length ys ≠ length m0s → length ys ≠ 1 → length m0s ≠ 1 →
  ∃ msg, ra_te_transformation y w p mu_0 mu_1 h = (Raise (ValueError msg), h).
Proof.
  intros Hy H0 E Ey E0. eexists. unfold ra_te_transformation.
  erewrite bind_raise; [reflexivity|].
  eapply np_binop_raise; [done | done | by apply broadcast_mismatch].
Qed.

Lemma misaligned_outcome_model_raises_witness :
  ∃ msg,
    ra_te_transformation (PArr 0) PNone PNone (PArr 1) PNone
      [[1; 2; 3]; [0; 0]]%float
    = (Raise (ValueError msg), [[1; 2; 3]; [0; 0]]%float).
Proof.
  refine (misaligned_outcome_model_raises
            [[1; 2; 3]; [0; 0]]%float (PArr 0) PNone PNone (PArr 1) PNone
            [1; 2; 3]%float [0; 0]%float _ _ _ _ _).
  - exists 0. split; reflexivity.
  - exists 1. split; reflexivity.
  - simpl. lia.
  - simpl. lia.
  - simpl. lia.
Defined.

Lemma valid_cases h v :
  valid h v → v = PNone ∨ ∃ xs : ndarray, arr h v xs.
Proof.
  destruct v as [|a]; [by left|]. intros [xs E]. right. exists xs, a. done.
Qed.

(** X6: without a treatment array ([w] is [None]) the HT and AIPW
    transformations raise [TypeError], for every [y] and [p] that are [None]
    or arrays. *)
Theorem missing_treatment_raises h y p mu_0 mu_1 :
  valid h y → valid h p →
  (ht_te_transformation y PNone p mu_0 mu_1 h).1 = Raise TypeError
  ∧ (aipw_te_transformation y PNone p mu_0 mu_1 h).1 = Raise TypeError.
Proof.
  intros Vy Vp.
  destruct (valid_cases _ _ Vp) as [-> | [ps Hp]].
  - destruct (valid_cases _ _ Vy) as [-> | [ys Hy]]; [by split|].
    rewrite (ht_absent_unfold _ _ _ _ _ _ Hy).
    rewrite (aipw_absent_unfold _ _ _ _ _ _ Hy). by split.
  - unfold ht_te_transformation, aipw_te_transformation.
    split; by erewrite bind_ok by (eapply default_p_present; eauto).
Qed.

Lemma missing_treatment_raises_witness :
  (ht_te_transformation (PArr 0) PNone PNone PNone PNone [[1; 2]]%float).1
  = Raise TypeError
  ∧ (aipw_te_transformation (PArr 0) PNone PNone PNone PNone
       [[1; 2]]%float).1
    = Raise TypeError.
Proof.
  apply (missing_treatment_raises [[1; 2]]%float (PArr 0) PNone PNone PNone).
  - by eexists.
  - exact I.
Defined.



(** ** More on the registry *)

Lemma get_ok_inv (name : pyname) (f : te_function) :
  _get_transformation_function name = Ok f →
  (name = NStr "HT" ∧ f = ht_te_transformation)
  ∨ (name = NStr "AIPW" ∧ f = aipw_te_transformation)
  ∨ (name = NStr "RA" ∧ f = ra_te_transformation).
Proof.
  intros E. destruct get_valid as (Eh & Ea & Er).
  destruct (py_in name ALL_TRANSFORMATIONS) eqn:In.
  - apply py_in_all in In. destruct In as [-> | [-> | ->]].
    + rewrite Eh in E. injection E as <-. auto.
    + rewrite Ea in E. injection E as <-. auto.
    + rewrite Er in E. injection E as <-. auto.
  - by rewrite (get_invalid _ In) in E.
Qed.

(** X8: the lookup returns exactly the entries of the dictionary, a string
    [s] resolving to [f] if and only if [TRANSFORMATION_DICT[s]] is [f]; and
    no two names resolve to the same function. *)
Theorem lookup_is_the_dictionary_and_injective :
  (∀ (s : string) (f : te_function),
     _get_transformation_function (NStr s) = Ok f
     ↔ TRANSFORMATION_DICT !! s = Some f)
  ∧ (∀ (n1 n2 : pyname) (f1 f2 : te_function),
       _get_transformation_function n1 = Ok f1 →
       _get_transformation_function n2 = Ok f2 →
       (n1 = n2 ↔ f1 = f2)).
Proof.
  split.
  - intros s f. split.
    + intros E. destruct (get_ok_inv _ _ E) as [[[= ->] ->] | [[[= ->] ->] | [[= ->] ->]]];
        reflexivity.
    + intros E. unfold _get_transformation_function.
      assert (py_in (NStr s) ALL_TRANSFORMATIONS = true) as ->.
      { apply py_in_all.
        assert (s ∈ dom TRANSFORMATION_DICT) as D by (apply elem_of_dom; eauto).
        unfold TRANSFORMATION_DICT in D.
        rewrite !dom_insert_L, dom_empty_L in D.
        unfold HT_TRANSFORMATION, AIPW_TRANSFORMATION, RA_TRANSFORMATION in D.
        set_unfold in D. destruct D as [-> | [-> | [-> | ?]]]; auto. done. }
      simpl. by rewrite E.
  - intros n1 n2 f1 f2 E1 E2. split.
    + intros <-. congruence.
    + intros <-. destruct transformations_distinct as (D1 & D2 & D3).
      destruct (get_ok_inv _ _ E1) as [[-> F1] | [[-> F1] | [-> F1]]];
        destruct (get_ok_inv _ _ E2) as [[-> F2] | [[-> F2] | [-> F2]]];
        try reflexivity; subst f1; congruence.
Qed.

(** ** The result is a new object *)

Lemma bind_inv {A B} (c : M A) (k : A → M B) h v h' :
  (c ≫= k) h = (Ok v, h') →
  ∃ x h1, c h = (Ok x, h1) ∧ k x h1 = (Ok v, h').
Proof.
  unfold mbind, M_bind. destruct (c h) as [[x|e] h1]; [eauto | done].
Qed.

Lemma alloc_inv xs h v h' :
  alloc xs h = (Ok v, h') → v = PArr (length h) ∧ h' = h ++ [xs].
Proof. unfold alloc. by intros [= <- <-]. Qed.

Lemma as_array_inv u h xs h' : as_array u h = (Ok xs, h') → h' = h.
Proof.
  unfold as_array. destruct u as [|a]; [done|].
  destruct (h !! a); [by intros [= _ <-] | done].
Qed.

Lemma np_binop_inv f a b h v h' :
  np_binop f a b h = (Ok v, h') →
  ∃ zs : ndarray, v = PArr (length h) ∧ h' = h ++ [zs].
Proof.
  unfold np_binop. intros E.
  apply bind_inv in E as (xs & h1 & E1 & E). apply as_array_inv in E1 as ->.
  apply bind_inv in E as (ys & h2 & E2 & E). apply as_array_inv in E2 as ->.
  apply bind_inv in E as (zs & h3 & E3 & E).
  unfold lift in E3. injection E3 as _ <-.
  apply alloc_inv in E as [-> ->]. eauto.
Qed.

Lemma np_rsub_inv c a h v h' :
  np_rsub c a h = (Ok v, h') →
  ∃ zs : ndarray, v = PArr (length h) ∧ h' = h ++ [zs].
Proof.
  unfold np_rsub. intros E.
  apply bind_inv in E as (xs & h1 & E1 & E). apply as_array_inv in E1 as ->.
  apply alloc_inv in E as [-> ->]. eauto.
Qed.

Lemma default_p_inv (y p : pyval) h q h1 :
  default_p y p h = (Ok q, h1) → h `prefix_of` h1.
Proof.
  destruct p as [|a]; simpl.
  - intros E. apply bind_inv in E as (n & h2 & E1 & E).
    unfold py_len in E1. apply bind_inv in E1 as (xs & h3 & E3 & E1).
    apply as_array_inv in E3 as ->. injection E1 as _ <-.
    apply alloc_inv in E as [_ ->]. by apply prefix_app_r.
  - by intros [= _ <-].
Qed.

Ltac invert_step E :=
  let x := fresh "x" in
  let h1 := fresh "h" in
  let E1 := fresh "E" in
  let zs := fresh "zs" in
  apply bind_inv in E as (x & h1 & E1 & E);
  first [ apply np_binop_inv in E1 as (zs & -> & ->)
        | apply np_rsub_inv in E1 as (zs & -> & ->) ].

Lemma fresh_result (f : te_function) h y w p mu_0 mu_1 v h' :
  f ∈ [ht_te_transformation; aipw_te_transformation; ra_te_transformation] →
  f y w p mu_0 mu_1 h = (Ok v, h') →
  ∃ (a : addr) (rs : ndarray),
    v = PArr a ∧ length h ≤ a ∧ h' !! a = Some rs.
Proof.
  intros In E. set_unfold in In.
  destruct In as [-> | [-> | [-> | ?]]]; [| | | done].
  - unfold ht_te_transformation in E.
    apply bind_inv in E as (q & h0 & Eq & E).
    apply default_p_inv, prefix_length in Eq.
    do 5 invert_step E. apply np_binop_inv in E as (? & -> & ->).
    eexists _, _. split; [done|].
    split; [|by apply list_lookup_middle].
    rewrite !length_app. lia.
  - unfold aipw_te_transformation in E.
    apply bind_inv in E as (q & h0 & Eq & E).
    apply default_p_inv, prefix_length in Eq.
    do 11 invert_step E. apply np_binop_inv in E as (? & -> & ->).
    eexists _, _. split; [done|].
    split; [|by apply list_lookup_middle].
    rewrite !length_app. lia.
  - unfold ra_te_transformation in E.
    do 5 invert_step E. apply np_binop_inv in E as (? & -> & ->).
    eexists _, _. split; [done|].
    split; [|by apply list_lookup_middle].
    rewrite !length_app. lia.
Qed.

(** X9: what a transformation returns is an array object that was not in
    the store before the call; it is none of the arguments, nor any other
    array the caller holds.  This holds for every call that returns,
    aligned batch or not. *)
Theorem result_is_a_new_object (f : te_function) h y w p mu_0 mu_1 v h' :
  f ∈ [ht_te_transformation; aipw_te_transformation; ra_te_transformation] →
  f y w p mu_0 mu_1 h = (Ok v, h') →
  (∃ rs : ndarray, arr h' v rs)
  ∧ ¬ valid h v
  ∧ ∀ u : pyval, valid h u → u ≠ v.
Proof.
  intros In E.
  destruct (fresh_result f h y w p mu_0 mu_1 v h' In E)
    as (a & rs & -> & La & Ha).
  assert (¬ valid h (PArr a)) as NV.
  { intros V. apply lookup_lt_is_Some in V. lia. }
  split; [exists rs, a; done|]. split; [done|].
  intros u Vu ->. done.
Qed.

Lemma result_is_a_new_object_witness :
  let h := [[1; 2]; [1; 0]]%float in
  let h' :=
    (ra_te_transformation (PArr 0) (PArr 1) PNone (PArr 0) (PArr 0) h).2 in
  (∃ rs : ndarray, arr h' (PArr 7) rs)
  ∧ ¬ valid h (PArr 7)
  ∧ ∀ u : pyval, valid h u → u ≠ PArr 7.
Proof.
  intros h h'.
  apply (result_is_a_new_object ra_te_transformation
           h (PArr 0) (PArr 1) PNone (PArr 0) (PArr 0) (PArr 7) h').
  - apply list_elem_of_further, list_elem_of_further, list_elem_of_here.
  - reflexivity.
Defined.

(** ** Batches in pieces *)

Lemma batch_runs h y w p mu_0 mu_1 (ys ws ps m0s m1s : ndarray) :
  batch h y w p mu_0 mu_1 ys ws ps m0s m1s →
  yields (ht_te_transformation y w p mu_0 mu_1) h (ht_array ys ws ps)
  ∧ yields (aipw_te_transformation y w p mu_0 mu_1) h
      (aipw_array ys ws ps m0s m1s)
  ∧ yields (ra_te_transformation y w p mu_0 mu_1) h (ra_array ys ws m0s m1s).
Proof.
  intros (Hy & Hw & Hp & H0 & H1 & Ew & E0 & E1).
  split; [|split; [|by apply ra_run]].
  - destruct Hp as [[-> ->] | [Hp Ep]];
      [by apply ht_absent | by apply ht_present].
  - destruct Hp as [[-> ->] | [Hp Ep]];
      [by apply aipw_absent | by apply aipw_present].
Qed.

Lemma propensity_length h p n ps : propensity h p n ps → length ps = n.
Proof. intros [[_ ->] | [_ E]]; [by rewrite length_replicate | done]. Qed.

Lemma ht_array_app (ys1 ys2 ws1 ws2 ps1 ps2 : ndarray) :
  length ws1 = length ys1 → length ps1 = length ys1 →
  ht_array (ys1 ++ ys2) (ws1 ++ ws2) (ps1 ++ ps2)
  = ht_array ys1 ws1 ps1 ++ ht_array ys2 ws2 ps2.
Proof.
  intros Ew Ep. unfold ht_array. rewrite !fmap_app.
  repeat rewrite zip_with_app by len. done.
Qed.

Lemma aipw_array_app (ys1 ys2 ws1 ws2 ps1 ps2 a1 a2 b1 b2 : ndarray) :
  length ws1 = length ys1 → length ps1 = length ys1 →
  length a1 = length ys1 → length b1 = length ys1 →
  aipw_array (ys1 ++ ys2) (ws1 ++ ws2) (ps1 ++ ps2) (a1 ++ a2) (b1 ++ b2)
  = aipw_array ys1 ws1 ps1 a1 b1 ++ aipw_array ys2 ws2 ps2 a2 b2.
Proof.
  intros Ew Ep Ea Eb. unfold aipw_array. cbv zeta.
  repeat first [rewrite fmap_app | rewrite zip_with_app by len]. done.
Qed.

Lemma ra_array_app (ys1 ys2 ws1 ws2 a1 a2 b1 b2 : ndarray) :
  length ws1 = length ys1 →
  length a1 = length ys1 → length b1 = length ys1 →
  ra_array (ys1 ++ ys2) (ws1 ++ ws2) (a1 ++ a2) (b1 ++ b2)
  = ra_array ys1 ws1 a1 b1 ++ ra_array ys2 ws2 a2 b2.
Proof.
  intros Ew Ea Eb. unfold ra_array.
  repeat first [rewrite fmap_app | rewrite zip_with_app by len]. done.
Qed.

(** X10: the transformations work unit by unit, so a batch can be cut in
    two.  When two aligned batches and their concatenation are in the store
    (argument by argument; an absent [p] counting as the array of halves),
    each transformation returns for the concatenation the concatenation of
    what it returns for the two pieces. *)
Theorem batches_concatenate (f : te_function) h
    (y1 w1 p1 a1 b1 y2 w2 p2 a2 b2 y w p a b : pyval)
    (ys1 ws1 ps1 m0s1 m1s1 ys2 ws2 ps2 m0s2 m1s2 : ndarray) :
  f ∈ [ht_te_transformation; aipw_te_transformation; ra_te_transformation] →
  batch h y1 w1 p1 a1 b1 ys1 ws1 ps1 m0s1 m1s1 →
  batch h y2 w2 p2 a2 b2 ys2 ws2 ps2 m0s2 m1s2 →
  batch h y w p a b
    (ys1 ++ ys2) (ws1 ++ ws2) (ps1 ++ ps2) (m0s1 ++ m0s2) (m1s1 ++ m1s2) →
  ∃ rs1 rs2 : ndarray,
    yields (f y1 w1 p1 a1 b1) h rs1
    ∧ yields (f y2 w2 p2 a2 b2) h rs2
    ∧ yields (f y w p a b) h (rs1 ++ rs2).
Proof.
  intros In B1 B2 B.
  destruct (batch_runs _ _ _ _ _ _ _ _ _ _ _ B1) as (Rh1 & Ra1 & Rr1).
  destruct (batch_runs _ _ _ _ _ _ _ _ _ _ _ B2) as (Rh2 & Ra2 & Rr2).
  destruct (batch_runs _ _ _ _ _ _ _ _ _ _ _ B) as (Rh & Ra & Rr).
  destruct B1 as (_ & _ & Hp1 & _ & _ & Ew & E0 & E1).
  apply propensity_length in Hp1.
  set_unfold in In. destruct In as [-> | [-> | [-> | ?]]]; [| | | done].
  - eexists _, _. split; [exact Rh1|]. split; [exact Rh2|].
    by rewrite <- ht_array_app.
  - eexists _, _. split; [exact Ra1|]. split; [exact Ra2|].
    by rewrite <- aipw_array_app.
  - eexists _, _. split; [exact Rr1|]. split; [exact Rr2|].
    by rewrite <- ra_array_app.
Qed.

Lemma batches_concatenate_witness :
  let h := [[1]; [2]; [1; 2]; [0.5]]%float in
  ∃ rs1 rs2 : ndarray,
    yields (aipw_te_transformation (PArr 0) (PArr 0) (PArr 3) (PArr 0) (PArr 0))
      h rs1
    ∧ yields
        (aipw_te_transformation (PArr 1) (PArr 1) (PArr 3) (PArr 1) (PArr 1))
        h rs2
    ∧ yields
        (aipw_te_transformation (PArr 2) (PArr 2) PNone (PArr 2) (PArr 2))
        h (rs1 ++ rs2).
Proof.
  intros h.
  refine (batches_concatenate aipw_te_transformation h
            (PArr 0) (PArr 0) (PArr 3) (PArr 0) (PArr 0)
            (PArr 1) (PArr 1) (PArr 3) (PArr 1) (PArr 1)
            (PArr 2) (PArr 2) PNone (PArr 2) (PArr 2)
            [1]%float [1]%float [0.5]%float [1]%float [1]%float
            [2]%float [2]%float [0.5]%float [2]%float [2]%float
            _ _ _ _).
  - apply list_elem_of_further, list_elem_of_here.
  - repeat split; try reflexivity;
      try (right; split; [|reflexivity]); eexists; split; reflexivity.
  - repeat split; try reflexivity;
      try (right; split; [|reflexivity]); eexists; split; reflexivity.
  - repeat split; try reflexivity;
      try (left; split; reflexivity); eexists; split; reflexivity.
Defined.

(** ** The AIPW transformation against the HT transformation *)

Lemma SF64mul_m1_l (x : spec_float) :
  valid_binary x = true → SF64mul (Prim2SF (-1)%float) x = SFopp x.
Proof.
  intros V.
  change (Prim2SF (-1)%float) with (S754_finite true 4503599627370496 (-52)).
  destruct x as [s|s| |s m e]; try reflexivity.
  unfold SF64mul, SFmul. cbn [xorb SFopp].
  simpl in V. unfold bounded, canonical_mantissa in V.
  apply andb_true_iff in V as [C B]. apply Z.eqb_eq in C.
  unfold binary_round_aux.
  unfold shr_fexp at 1. cbn [Zdigits2 shr_record_of_loc].
  assert (D : (fexp prec emax
                 (Z.pos (digits2_pos (4503599627370496 * m)) + (-52 + e))
               - (-52 + e) = 52)%Z).
  { change (4503599627370496 * m)%positive with (Nat.iter 52 xO m).
    rewrite digits2_pos_shift.
    replace (Z.pos (digits2_pos m) + Z.of_nat 52 + (-52 + e))%Z
      with (Z.pos (digits2_pos m) + e)%Z by lia.
    rewrite C. lia. }
  rewrite D.
  change (shr {| shr_m := Z.pos (4503599627370496 * m);
                 shr_r := false; shr_s := false |} (-52 + e) 52)
    with ({| shr_m := Z.pos m; shr_r := false; shr_s := false |},
          (-52 + e + 52)%Z).
  cbn [shr_m loc_of_shr_record round_nearest_even].
  replace (-52 + e + 52)%Z with e by lia.
  unfold shr_fexp. cbn [Zdigits2 shr_record_of_loc]. rewrite C, Z.sub_diag.
  cbn [shr shr_m]. by rewrite B.
Qed.

(** [-1 * x] is [-x], bit for bit. *)
Lemma float_mul_m1_l (x : float) : (-1 * x)%float = (- x)%float.
Proof.
  apply Prim2SF_inj. rewrite mul_spec, opp_spec.
  apply SF64mul_m1_l, Prim2SF_valid.
Qed.

Lemma float_mul_0_r_finite (a : float) :
  is_finite a = true → (a * 0 = 0 ∨ a * 0 = -0)%float.
Proof.
  rewrite is_finite_SF. intros F.
  pose proof (mul_spec a 0) as E.
  change (Prim2SF 0) with (S754_zero false) in E.
  destruct (Prim2SF a) as [s|s| |s m e]; try done;
    apply float_zero_cases in E; destruct s; auto.
Qed.

Lemma float_sub_zeros (z1 z2 : float) :
  (z1 = 0 ∨ z1 = -0)%float → (z2 = 0 ∨ z2 = -0)%float →
  (z1 - z2 = 0 ∨ z1 - z2 = -0)%float.
Proof. intros [-> | ->] [-> | ->]; auto. Qed.

(** [x - (-y)] is [x + y], bit for bit. *)
Lemma float_sub_opp (x y : float) : (x - (- y))%float = (x + y)%float.
Proof.
  apply Prim2SF_inj. rewrite sub_spec, opp_spec, add_spec.
  destruct (Prim2SF x) as [sx|sx| |sx mx ex],
           (Prim2SF y) as [sy|sy| |sy my ey];
    try reflexivity; by destruct sx, sy.
Qed.

Lemma aipw_elem_zero_models (y w p : float) :
  is_finite (1 - w / p) = true →
  is_finite (1 - (1 - w) / (1 - p)) = true →
  aipw_elem y w p 0 0 = ht_elem y w p
  ∨ (ht_elem y w p = (-0)%float ∧ aipw_elem y w p 0 0 = 0%float).
Proof.
  intros F1 F0. unfold aipw_elem, ht_elem. cbv zeta.
  apply float_add_zero_r, float_sub_zeros; by apply float_mul_0_r_finite.
Qed.

Lemma aipw_elem_halves_treated (y m0 m1 : float) :
  aipw_elem y 1 0.5 m0 m1 = (2 * y + (- m1 - m0))%float.
Proof.
  change (aipw_elem y 1 0.5 m0 m1) with (2 * y + (-1 * m1 - 1 * m0))%float.
  by rewrite float_mul_m1_l, float_mul_1_l.
Qed.

Lemma aipw_elem_halves_control (y m0 m1 : float) :
  aipw_elem y 0 0.5 m0 m1 = (-2 * y + (m1 + m0))%float.
Proof.
  change (aipw_elem y 0 0.5 m0 m1) with (-2 * y + (1 * m1 - -1 * m0))%float.
  by rewrite float_mul_m1_l, float_mul_1_l, float_sub_opp.
Qed.

(** X11: with both outcome models identically zero the AIPW transformation
    is the HT transformation.  On an aligned batch whose [mu_0] and [mu_1]
    hold only [0.0], the two results agree at every unit whose
    complementary weights [1 - w/p] and [1 - (1-w)/(1-p)] are finite, up to
    the sign of a zero ([+0] from AIPW where HT gives [-0]). *)
Theorem aipw_with_zero_models_is_ht h y w p mu_0 mu_1 (ys ws ps : ndarray) :
  arr h y ys → arr h w ws → arr h p ps →
  arr h mu_0 (replicate (length ys) 0%float) →
  arr h mu_1 (replicate (length ys) 0%float) →
  length ws = length ys → length ps = length ys →
  ∃ rs_ht rs_aipw : ndarray,
    yields (ht_te_transformation y w p mu_0 mu_1) h rs_ht
    ∧ yields (aipw_te_transformation y w p mu_0 mu_1) h rs_aipw
    ∧ ∀ i yi wi pi,
        ys !! i = Some yi → ws !! i = Some wi → ps !! i = Some pi →
        is_finite (1 - wi / pi) = true →
        is_finite (1 - (1 - wi) / (1 - pi)) = true →
        rs_aipw !! i = rs_ht !! i
        ∨ (rs_ht !! i = Some (-0)%float ∧ rs_aipw !! i = Some 0%float).
Proof.
  intros Hy Hw Hp H0 H1 Ew Ep.
  exists (ht_array ys ws ps),
    (aipw_array ys ws ps (replicate (length ys) 0%float)
       (replicate (length ys) 0%float)).
  split; [by apply ht_present|].
  split; [apply aipw_present; by rewrite ?length_replicate|].
  intros i yi wi pi Hyi Hwi Hpi F1 F0.
  assert (replicate (length ys) 0%float !! i = Some 0%float) as Hz
    by (apply lookup_replicate_2; by eapply lookup_lt_Some).
  rewrite (ht_array_lookup _ _ _ _ _ _ _ Hyi Hwi Hpi).
  rewrite (aipw_array_lookup _ _ _ _ _ _ _ _ _ _ _ Hyi Hwi Hpi Hz Hz).
  destruct (aipw_elem_zero_models yi wi pi F1 F0) as [-> | [-> ->]]; auto.
Qed.

Lemma aipw_with_zero_models_is_ht_witness :
  ∃ rs_ht rs_aipw : ndarray,
    yields (ht_te_transformation (PArr 0) (PArr 1) (PArr 2) (PArr 3) (PArr 3))
      [[1; 2]; [1; 0]; [0.25; 0.5]; [0; 0]]%float rs_ht
    ∧ yields
        (aipw_te_transformation (PArr 0) (PArr 1) (PArr 2) (PArr 3) (PArr 3))
        [[1; 2]; [1; 0]; [0.25; 0.5]; [0; 0]]%float rs_aipw
    ∧ ∀ i yi wi pi,
        [1; 2]%float !! i = Some yi → [1; 0]%float !! i = Some wi →
        [0.25; 0.5]%float !! i = Some pi →
        is_finite (1 - wi / pi) = true →
        is_finite (1 - (1 - wi) / (1 - pi)) = true →
        rs_aipw !! i = rs_ht !! i
        ∨ (rs_ht !! i = Some (-0)%float ∧ rs_aipw !! i = Some 0%float).
Proof.
  refine (aipw_with_zero_models_is_ht
            [[1; 2]; [1; 0]; [0.25; 0.5]; [0; 0]]%float
            (PArr 0) (PArr 1) (PArr 2) (PArr 3) (PArr 3)
            [1; 2]%float [1; 0]%float [0.25; 0.5]%float _ _ _ _ _ _ _).
  - exists 0. split; reflexivity.
  - exists 1. split; reflexivity.
  - exists 2. split; reflexivity.
  - exists 3. split; reflexivity.
  - exists 3. split; reflexivity.
  - reflexivity.
  - reflexivity.
Defined.

(** X12: the AIPW transformation with [p] absent, in closed form.  On an
    aligned batch the element of a treated unit ([w[i] = 1]) is
    [2*y[i] + (-mu_1[i] - mu_0[i])] and that of a control unit
    ([w[i] = 0]) is [-2*y[i] + (mu_1[i] + mu_0[i])], exactly. *)
Theorem aipw_equal_propensities_closed_form h y w mu_0 mu_1
    (ys ws m0s m1s : ndarray) :
  arr h y ys → arr h w ws → arr h mu_0 m0s → arr h mu_1 m1s →
  length ws = length ys → length m0s = length ys → length m1s = length ys →
  ∃ rs : ndarray,
    yields (aipw_te_transformation y w PNone mu_0 mu_1) h rs
    ∧ ∀ i yi wi m0 m1,
        ys !! i = Some yi → ws !! i = Some wi →
        m0s !! i = Some m0 → m1s !! i = Some m1 →
        (wi = 1%float → rs !! i = Some (2 * yi + (- m1 - m0))%float)
        ∧ (wi = 0%float → rs !! i = Some (-2 * yi + (m1 + m0))%float).
Proof.
  intros Hy Hw H0 H1 Ew E0 E1.
  exists (aipw_array ys ws (replicate (length ys) 0.5%float) m0s m1s).
  split; [by apply aipw_absent|].
  intros i yi wi m0 m1 Hyi Hwi H0i H1i.
  rewrite (aipw_array_lookup _ _ _ _ _ _ _ _ _ _ _
             Hyi Hwi (halves_lookup _ _ _ Hyi) H0i H1i).
  split; intros ->.
  - by rewrite aipw_elem_halves_treated.
  - by rewrite aipw_elem_halves_control.
Qed.

Lemma aipw_equal_propensities_closed_form_witness :
  ∃ rs : ndarray,
    yields (aipw_te_transformation (PArr 0) (PArr 1) PNone (PArr 2) (PArr 3))
      [[1; 2]; [1; 0]; [0; 0]; [1; 1]]%float rs
    ∧ ∀ i yi wi m0 m1,
        [1; 2]%float !! i = Some yi → [1; 0]%float !! i = Some wi →
        [0; 0]%float !! i = Some m0 → [1; 1]%float !! i = Some m1 →
        (wi = 1%float → rs !! i = Some (2 * yi + (- m1 - m0))%float)
        ∧ (wi = 0%float → rs !! i = Some (-2 * yi + (m1 + m0))%float).
Proof.
  refine (aipw_equal_propensities_closed_form
            [[1; 2]; [1; 0]; [0; 0]; [1; 1]]%float
            (PArr 0) (PArr 1) (PArr 2) (PArr 3)
            [1; 2]%float [1; 0]%float [0; 0]%float [1; 1]%float
            _ _ _ _ _ _ _).
  - exists 0. split; reflexivity.
  - exists 1. split; reflexivity.
  - exists 2. split; reflexivity.
  - exists 3. split; reflexivity.
  - reflexivity.
  - reflexivity.
  - reflexivity.
Defined.

(** ** What a call can depend on, and how it can end *)

(** X13: a call sees the contents of its arguments and nothing else.  Take
    two stores and two lists of arguments that are pairwise alike ([None]
    both, or arrays with the same contents, at whatever addresses, shared
    between arguments or not): each transformation ends the same way in
    both, with the same exception or with arrays of the same contents, and
    leaves every object of either store as it was. *)
Theorem outcome_depends_on_contents_only (f : te_function) h h'
    y y' w w' p p' mu_0 mu_0' mu_1 mu_1' :
  f ∈ [ht_te_transformation; aipw_te_transformation; ra_te_transformation] →
  same_value h h' y y' → same_value h h' w w' → same_value h h' p p' →
  same_value h h' mu_0 mu_0' → same_value h h' mu_1 mu_1' →
  let o := f y w p mu_0 mu_1 h in
  let o' := f y' w' p' mu_0' mu_1' h' in
  h `prefix_of` o.2 ∧ h' `prefix_of` o'.2
  ∧ match o.1, o'.1 with
    | Ok v, Ok v' =>
        ∃ rs : ndarray, arr o.2 v rs ∧ arr o'.2 v' rs
    | Raise e, Raise e' => e = e'
    | _, _ => False
    end.
Proof.
  intros In Hy Hw Hp H0 H1. cbv zeta.
  destruct (transformation_sim f h h' y y' w w' p p' mu_0 mu_0' mu_1 mu_1'
              In Hy Hw Hp H0 H1) as (P & P' & R).
  destruct (f y w p mu_0 mu_1 h) as [r h1] eqn:E.
  destruct (f y' w' p' mu_0' mu_1' h') as [r' h1'] eqn:E'.
  simpl in *. split; [done|]. split; [done|].
  destruct r as [v|e], r' as [v'|e']; try done.
  destruct (fresh_result f _ _ _ _ _ _ _ _ In E) as (a & ? & -> & _).
  destruct (fresh_result f _ _ _ _ _ _ _ _ In E') as (a' & ? & -> & _).
  destruct R as (rs & Ea & Ea'). exists rs. split; eexists; eauto.
Qed.

Lemma outcome_depends_on_contents_only_witness :
  let h := [[1; 2]; [1; 0]]%float in
  let h' := [[9]; [1; 0]; [1; 2]; [1; 2]; [1; 2]]%float in
  let o := ra_te_transformation (PArr 0) (PArr 1) PNone (PArr 0) (PArr 0) h in
  let o' :=
    ra_te_transformation (PArr 2) (PArr 1) PNone (PArr 3) (PArr 4) h' in
  h `prefix_of` o.2 ∧ h' `prefix_of` o'.2
  ∧ match o.1, o'.1 with
    | Ok v, Ok v' =>
        ∃ rs : ndarray, arr o.2 v rs ∧ arr o'.2 v' rs
    | Raise e, Raise e' => e = e'
    | _, _ => False
    end.
Proof.
  intros h h'.
  apply (outcome_depends_on_contents_only ra_te_transformation h h'
           (PArr 0) (PArr 2) (PArr 1) (PArr 1) PNone PNone
           (PArr 0) (PArr 3) (PArr 0) (PArr 4)).
  - apply list_elem_of_further, list_elem_of_further, list_elem_of_here.
  - eexists. split; reflexivity.
  - eexists. split; reflexivity.
  - exact I.
  - eexists. split; reflexivity.
  - eexists. split; reflexivity.
Defined.

Lemma broadcast_raise_inv f (xs ys : ndarray) e :
  broadcast f xs ys = Raise e → ∃ msg, e = ValueError msg.
Proof.
  unfold broadcast. destruct (decide (length xs = length ys)); [done|].
  destruct xs as [|x [|x' xs]], ys as [|y [|y' ys]];
    try done; intros [= <-]; eauto.
Qed.

Lemma np_binop_cases f h a b (xs ys : ndarray) :
  arr h a xs → arr h b ys →
  (∃ zs : ndarray, np_binop f a b h = (Ok (PArr (length h)), h ++ [zs]))
  ∨ (∃ msg, np_binop f a b h = (Raise (ValueError msg), h)).
Proof.
  intros Ha Hb. destruct (broadcast f xs ys) as [zs|e] eqn:E.
  - left. exists zs. by eapply np_binop_run_gen.
  - right. destruct (broadcast_raise_inv _ _ _ _ E) as [msg ->].
    exists msg. by eapply np_binop_raise.
Qed.

(** A statement on arrays of any lengths: it yields an array, or the call
    ends with [ValueError]. *)
Ltac binop_cases f H a b E :=
  let Ha := fresh "Ha" in
  let Hb := fresh "Hb" in
  assert (∃ xs : ndarray, arr H a xs) as [? Ha] by (eexists; arrs);
  assert (∃ ys : ndarray, arr H b ys) as [? Hb] by (eexists; arrs);
  destruct (np_binop_cases f H a b _ _ Ha Hb) as [[? E] | [? E]];
  clear Ha Hb.

Ltac cstep :=
  lazymatch goal with
  | |- context [ (np_binop ?f ?a ?b ≫= _) ?H ] =>
      let E := fresh "E" in
      binop_cases f H a b E;
      [ rewrite (bind_ok _ _ _ _ _ E); clear E
      | right; rewrite (bind_raise _ _ _ _ _ E); do 2 eexists; reflexivity ]
  | |- context [ (np_rsub _ _ ≫= _) _ ] =>
      erewrite bind_ok; [| eapply np_rsub_run; arrs]
  end.

Ltac last_cstep :=
  lazymatch goal with
  | |- context [ np_binop ?f ?a ?b ?H ] =>
      let E := fresh "E" in
      binop_cases f H a b E;
      [ left; rewrite E; eexists _, _;
        split; [| reflexivity]; repeat apply prefix_app_r; reflexivity
      | right; rewrite E; do 2 eexists; reflexivity ]
  end.

Lemma arrays_return_or_value_error_present (f : te_function)
    h y w p mu_0 mu_1 (ys ws ps m0s m1s : ndarray) :
  f ∈ [ht_te_transformation; aipw_te_transformation; ra_te_transformation] →
  arr h y ys → arr h w ws → arr h p ps →
  arr h mu_0 m0s → arr h mu_1 m1s →
  (∃ rs : ndarray, yields (f y w p mu_0 mu_1) h rs)
  ∨ (∃ msg h', f y w p mu_0 mu_1 h = (Raise (ValueError msg), h')).
Proof.
  intros In Hy Hw Hp H0 H1. unfold yields. set_unfold in In.
  destruct In as [-> | [-> | [-> | ?]]]; [| | | done].
  - unfold ht_te_transformation.
    erewrite bind_ok by (eapply default_p_present; eauto).
    unfold np_div, np_sub, np_mul, np_add.
    do 5 cstep. last_cstep.
  - unfold aipw_te_transformation.
    erewrite bind_ok by (eapply default_p_present; eauto).
    unfold np_div, np_sub, np_mul, np_add.
    do 11 cstep. last_cstep.
  - unfold ra_te_transformation.
    unfold np_div, np_sub, np_mul, np_add.
    do 5 cstep. last_cstep.
Qed.

(** X14: how a call on arrays can end.  With arrays of any lengths for [y],
    [w], [mu_0] and [mu_1], and [p] an array or absent, a transformation
    returns a new array or raises [ValueError], the error of operands that
    cannot be broadcast; it raises nothing else. *)
Theorem arrays_return_or_value_error (f : te_function)
    h y w p mu_0 mu_1 (ys ws m0s m1s : ndarray) :
  f ∈ [ht_te_transformation; aipw_te_transformation; ra_te_transformation] →
  arr h y ys → arr h w ws → arr h mu_0 m0s → arr h mu_1 m1s →
  valid h p →
  (∃ rs : ndarray, yields (f y w p mu_0 mu_1) h rs)
  ∨ (∃ msg h', f y w p mu_0 mu_1 h = (Raise (ValueError msg), h')).
Proof.
  intros In Hy Hw H0 H1 Vp.
  destruct (valid_cases _ _ Vp) as [-> | [ps Hp]];
    [|by eapply arrays_return_or_value_error_present].
  set (h1 := h ++ [replicate (length ys) 0.5%float]).
  assert (f y w PNone mu_0 mu_1 h = f y w (PArr (length h)) mu_0 mu_1 h1
          ∨ f y w PNone mu_0 mu_1 h = f y w y mu_0 mu_1 h) as [E | E].
  { set_unfold in In. destruct In as [-> | [-> | [-> | ?]]]; [| | | done].
    - left. by eapply ht_absent_unfold.
    - left. by eapply aipw_absent_unfold.
    - right. reflexivity. }
  - destruct (arrays_return_or_value_error_present f h1 y w (PArr (length h))
                mu_0 mu_1 ys ws (replicate (length ys) 0.5%float) m0s m1s In)
      as [[rs R] | (msg & h' & R)]; [subst h1; arrs ..| |].
    + left. exists rs. eapply yields_prefix; [|exact E|exact R].
      by apply prefix_app_r.
    + right. exists msg, h'. by rewrite E.
  - rewrite E. unfold yields. setoid_rewrite E.
    by eapply arrays_return_or_value_error_present.
Qed.

Lemma arrays_return_or_value_error_witness :
  (∃ rs : ndarray,
     yields (aipw_te_transformation (PArr 0) (PArr 1) PNone (PArr 2) (PArr 2))
       [[1; 2]; [1; 0]; [0; 0; 0]]%float rs)
  ∨ (∃ msg h',
       aipw_te_transformation (PArr 0) (PArr 1) PNone (PArr 2) (PArr 2)
         [[1; 2]; [1; 0]; [0; 0; 0]]%float
       = (Raise (ValueError msg), h')).
Proof.
  refine (arrays_return_or_value_error aipw_te_transformation
            [[1; 2]; [1; 0]; [0; 0; 0]]%float
            (PArr 0) (PArr 1) PNone (PArr 2) (PArr 2)
            [1; 2]%float [1; 0]%float [0; 0; 0]%float [0; 0; 0]%float
            _ _ _ _ _ _).
  - apply list_elem_of_further, list_elem_of_here.
  - exists 0. split; reflexivity.
  - exists 1. split; reflexivity.
  - exists 2. split; reflexivity.
  - exists 2. split; reflexivity.
  - exact I.
Defined.
